(** * pizza3 / mstruct.py : registry, dependency sorter and evaluation

    A shallow embedding of [src/pizza/private/mstruct.py]: the classes
    [struct], [param] and [SafeEvaluator].

    Conventions of the embedding.
    - A Python object of class [struct]/[param]/[paramauto] is its class
      tag together with its instance dictionary [__dict__], kept as an
      association list in insertion order (the order of a Python dict).
    - A method that may raise returns a [result]; the exception classes
      that the source catches or raises by name are the constructors of
      [exn_kind].
    - What the Python interpreter and its libraries provide ([str],
      [str.format_map] on compound fields, [ast.parse], the [operator]
      module, attribute lookup and calls on objects) is gathered in the
      record [runtime]; the functions of the source are written once over
      an arbitrary runtime and interpreter state.
    - Field names that shadow a method of the class (a field called
      [keys], say) are outside the embedding: Python would then resolve
      [self.keys] to the field. *)

From Stdlib Require Import List String Ascii ZArith Lia Bool Arith.
From Stdlib Require Import Permutation DecimalString.
Import ListNotations.
Open Scope string_scope.

Set Implicit Arguments.

(** ** Values *)

#[warnings="-register-all"]
Inductive value : Type :=
| VNone
| VBool (b : bool)
| VInt (z : Z)
| VStr (s : string)
| VList (l : list value)              (* a list known by its contents *)
| VTuple (l : list value)
| VSlice (lower upper step : value)   (* slice(lower, upper, step) *)
| VAttrSet                            (* the set bound to _excludedattr *)
| VBuiltin (name : string)            (* math.sin, random.gauss, np, ... *)
| VMethod (self : value) (name : string)   (* bound method self.name *)
| VObj (o : nat).                     (* an object of the interpreter state:
                                         a shared list, a float, an array *)

(** ** Exceptions and results *)

Inductive exn_kind : Type :=
| KeyError | NameError | SyntaxError | TypeError | ValueError
| IndexError | AttributeError | RuntimeError
| OtherError.   (* any other subclass of Exception *)

Inductive result (A : Type) : Type :=
| Ok (a : A)
| Raise (k : exn_kind) (m : string).

Arguments Ok {A} a.
Arguments Raise {A} k m.

Definition bind {A B : Type} (r : result A) (f : A -> result B) : result B :=
  match r with
  | Ok a => f a
  | Raise k m => Raise k m
  end.

Notation "x <- r ;; k" := (bind r (fun x => k))
  (at level 61, r at next level, right associativity).

Definition is_ok {A : Type} (r : result A) : bool :=
  match r with Ok _ => true | Raise _ _ => false end.

(** ** Python dictionaries and list indexing *)

Definition pydict : Type := list (string * value).

Fixpoint dict_get (d : pydict) (k : string) : option value :=
  match d with
  | [] => None
  | (k', v) :: d' => if String.eqb k' k then Some v else dict_get d' k
  end.

Definition dict_mem (d : pydict) (k : string) : bool :=
  match dict_get d k with Some _ => true | None => false end.

(* d[k] = v : an existing key keeps its place, a new key goes last *)
Fixpoint dict_set (d : pydict) (k : string) (v : value) : pydict :=
  match d with
  | [] => [(k, v)]
  | (k', v') :: d' =>
      if String.eqb k' k then (k, v) :: d' else (k', v') :: dict_set d' k v
  end.

(* del d[k] *)
Fixpoint dict_del (d : pydict) (k : string) : pydict :=
  match d with
  | [] => []
  | (k', v') :: d' =>
      if String.eqb k' k then d' else (k', v') :: dict_del d' k
  end.

(* d.update(e) *)
Definition dict_update (d e : pydict) : pydict :=
  fold_left (fun acc kv => dict_set acc (fst kv) (snd kv)) e d.

(* l[i] for a Python list and any integer i; None is IndexError *)
Definition list_index {A : Type} (l : list A) (i : Z) : option A :=
  if (0 <=? i)%Z then nth_error l (Z.to_nat i)
  else if (0 <=? i + Z.of_nat (List.length l))%Z
       then nth_error l (Z.to_nat (i + Z.of_nat (List.length l)))
       else None.

Definition mem_string (x : string) (l : list string) : bool :=
  existsb (String.eqb x) l.

(* str(n) for a non-negative integer *)
Definition str_of_nat (n : nat) : string :=
  NilZero.string_of_uint (Nat.to_uint n).

(** ** Python strings

    A Python string is a [string] whose characters are code points below
    256. *)

Definition newline : ascii := "010"%char.
Definition dquote : string := String "034"%char EmptyString.
Definition squote : string := String "039"%char EmptyString.

(* s[n:] *)
Fixpoint drop (n : nat) (s : string) : string :=
  match n, s with
  | O, _ => s
  | S n', String _ s' => drop n' s'
  | S _, EmptyString => EmptyString
  end.

(* s[a:b] for 0 <= a and 0 <= b *)
Definition slice (s : string) (a b : nat) : string := substring a (b - a) s.

(* the first index at or after pos where sub occurs, s being the text
   from pos on *)
Fixpoint find_in (sub s : string) (pos : nat) : option nat :=
  if prefix sub s then Some pos
  else match s with
       | EmptyString => None
       | String _ s' => find_in sub s' (S pos)
       end.

(* s.find(sub, start); None is -1 *)
Definition find (s sub : string) (start : nat) : option nat :=
  if (start <=? String.length s)%nat then find_in sub (drop start s) start
  else None.

(* s.replace(old, new) for a non-empty old: occurrences are replaced
   from the left and do not overlap; skip counts the characters of an
   occurrence still to be passed over *)
Fixpoint replace_from (old new : string) (skip : nat) (s : string) : string :=
  match s with
  | EmptyString => EmptyString
  | String c s' =>
      match skip with
      | S k => replace_from old new k s'
      | O =>
          if prefix old s
          then new ++ replace_from old new (String.length old - 1) s'
          else String c (replace_from old new 0 s')
      end
  end.

Definition replace (old new s : string) : string := replace_from old new 0 s.

(* str.isspace on one character *)
Definition is_space (c : ascii) : bool :=
  let n := nat_of_ascii c in
  ((9 <=? n) && (n <=? 13) || (28 <=? n) && (n <=? 32)
   || (n =? 133) || (n =? 160))%nat.

Fixpoint lstrip (s : string) : string :=
  match s with
  | EmptyString => EmptyString
  | String c s' => if is_space c then lstrip s' else s
  end.

(* s.rstrip(): the last component tells whether all of s is blank *)
Fixpoint rstrip_aux (s : string) : string * bool :=
  match s with
  | EmptyString => (EmptyString, true)
  | String c s' =>
      let '(r, blank) := rstrip_aux s' in
      if blank && is_space c then (EmptyString, true)
      else (String c r, false)
  end.

Definition rstrip (s : string) : string := fst (rstrip_aux s).
Definition strip (s : string) : string := rstrip (lstrip s).

Definition startswith (s p : string) : bool := prefix p s.

Fixpoint all_digits (s : string) : bool :=
  match s with
  | EmptyString => true
  | String c s' =>
      let n := nat_of_ascii c in
      ((48 <=? n) && (n <=? 57))%nat && all_digits s'
  end.

Fixpoint contains_char (c : ascii) (s : string) : bool :=
  match s with
  | EmptyString => false
  | String c' s' => Ascii.eqb c c' || contains_char c s'
  end.

(* the characters of a field name: letters, digits and underscore *)
Definition ident_char (c : ascii) : bool :=
  let n := nat_of_ascii c in
  ((65 <=? n) && (n <=? 90) || (97 <=? n) && (n <=? 122) || (n =? 95)
   || (48 <=? n) && (n <=? 57))%nat.

Fixpoint identifier (s : string) : bool :=
  match s with
  | EmptyString => true
  | String c s' => ident_char c && identifier s'
  end.

(** ** Regular expressions of the module *)

(* .*?\} at the start of s: the number of characters before the first
   closing brace, provided no newline comes before it *)
Fixpoint lazy_close (s : string) : option nat :=
  match s with
  | EmptyString => None
  | String c s' =>
      if Ascii.eqb c "}"%char then Some 0
      else if Ascii.eqb c newline then None
      else option_map S (lazy_close s')
  end.

(* re.search(r"\$\{.*?\}", s) is not None *)
Fixpoint search_placeholder (s : string) : bool :=
  match s with
  | EmptyString => false
  | String _ s' =>
      (prefix "${" s
       && match lazy_close (drop 2 s) with Some _ => true | None => false end)
      || search_placeholder s'
  end.

(* re.findall(r"\$\{(.*?)\}", s) *)
Fixpoint findall_placeholders (skip : nat) (s : string) : list string :=
  match s with
  | EmptyString => []
  | String _ s' =>
      match skip with
      | S k => findall_placeholders k s'
      | O =>
          if prefix "${" s then
            match lazy_close (drop 2 s) with
            | Some n => substring 2 n s :: findall_placeholders (n + 2) s'
            | None => findall_placeholders 0 s'
            end
          else findall_placeholders 0 s'
      end
  end.

(* [^{}]+\} at the start of s: the length of the non-empty run of
   characters other than braces that a closing brace ends *)
Fixpoint brace_free_run (s : string) : option nat :=
  match s with
  | EmptyString => None
  | String c s' =>
      if Ascii.eqb c "}"%char then Some 0
      else if Ascii.eqb c "{"%char then None
      else option_map S (brace_free_run s')
  end.

Definition expr_span (s : string) : option nat :=
  match brace_free_run s with
  | Some (S n) => Some (S n)
  | _ => None
  end.

(* re.sub(r'(?<!^)\#.*', '', s): from a hash that is not the first
   character to the end of its line *)
Fixpoint strip_comments_from (first incomment : bool) (s : string) : string :=
  match s with
  | EmptyString => EmptyString
  | String c s' =>
      if Ascii.eqb c newline then String c (strip_comments_from false false s')
      else if incomment then strip_comments_from false true s'
      else if Ascii.eqb c "#"%char && negb first
           then strip_comments_from false true s'
           else String c (strip_comments_from false false s')
  end.

(** ** Classes *)

Inductive pyclass : Type := CStruct | CParam | CParamauto.

Record struct : Type := mkstruct { cls : pyclass; __dict__ : pydict }.

(* isinstance(self, param) *)
Definition isparam (s : struct) : bool :=
  match cls s with CStruct => false | _ => true end.

(* struct._excludedattr, as extended by struct.__init__ *)
Definition _excludedattr : list string :=
  ["_iter_"; "__class__"; "_protection"; "_evaluation"; "_returnerror";
   "_excludedattr"; "_type"; "_fulltype"; "_ftype"].

(* the names bound in the body of each class: self.__class__.__dict__ *)
Definition class_dict (c : pyclass) : list string :=
  match c with
  | CStruct =>
      ["__module__"; "__doc__"; "__dict__"; "__weakref__";
       "_type"; "_fulltype"; "_ftype"; "_evalfeature"; "_maxdisplay";
       "_propertyasattribute"; "_iter_"; "_excludedattr";
       "__init__"; "zip"; "dict2struct"; "struct2dict"; "struct2param";
       "set"; "setattr"; "getattr"; "hasattr"; "__getstate__";
       "__setstate__"; "__getattr__"; "__setattr__"; "__contains__";
       "keys"; "keyssorted"; "values"; "fromkeysvalues"; "items";
       "__getitem__"; "__setitem__"; "__len__"; "__iter__"; "__next__";
       "__add__"; "__iadd__"; "__sub__"; "__isub__"; "dispmax";
       "__repr__"; "disp"; "__str__"; "isempty"; "clear"; "format";
       "format_legacy"; "fromkeys"; "scan"; "isstrexpression";
       "isexpression"; "isstrdefined"; "isdefined"; "sortdefinitions";
       "generator"; "__copy__"; "__deepcopy__"; "write"; "read"; "check";
       "update"; "__call__"; "__delattr__"; "format_array"]
  | CParam =>
      ["__module__"; "__doc__";
       "_type"; "_fulltype"; "_ftype"; "_evalfeature"; "_returnerror";
       "__init__"; "escape"; "protect"; "eval"; "formateval"; "tostruct";
       "tostatic"; "safe_fstring"]
  | CParamauto =>
      ["__module__"; "__doc__"; "__add__"; "__iadd__"; "__repr__"]
  end.

(* the class attributes _type and _ftype *)
Definition _type (c : pyclass) : string :=
  match c with CStruct => "struct" | _ => "param" end.

Definition _ftype (c : pyclass) : string :=
  match c with CStruct => "field" | _ => "definition" end.

(* struct(k1=v1, ...): __init__ binds _excludedattr, then set() updates
   __dict__ with the keyword arguments *)
Definition struct_init (kwargs : pydict) : struct :=
  mkstruct CStruct (dict_update [("_excludedattr", VAttrSet)] kwargs).

(* param(_protection, _evaluation, k1=v1, ...), sortdefinitions=False *)
Definition param_init (_protection _evaluation : bool) (kwargs : pydict)
  : struct :=
  mkstruct CParam
    (dict_set
       (dict_set (dict_update [("_excludedattr", VAttrSet)] kwargs)
          "_protection" (VBool _protection))
       "_evaluation" (VBool _evaluation)).

(* s = param() if makeparam else struct() *)
Definition new_like (makeparam : bool) : struct :=
  if makeparam then param_init false true [] else struct_init [].

(** ** The runtime: what the interpreter and its libraries provide *)

Inductive binop : Type :=
| Add | Sub | Mult | Div | FloorDiv | Mod | Pow | MatMult
| OtherBinop.   (* <<, >>, |, &, ^ : not in SafeEvaluator.operators *)

Inductive unop : Type :=
| USub
| OtherUnop.    (* +x, not x, ~x *)

(* the nodes of ast that SafeEvaluator has a visit_ method for; every
   other node class is Unsupported *)
#[warnings="-register-all"]
Inductive expr : Type :=
| Name (id : string)
| Constant (v : value)
| BinOp (left : expr) (op : binop) (right : expr)
| UnaryOp (op : unop) (operand : expr)
| Call (func : expr) (args : list expr) (keywords : list (string * expr))
| Attribute (v : expr) (attr : string)
| Subscript (v : expr) (slice : expr)
| Slice (lower upper step : option expr)
| TupleE (elts : list expr)
| ListE (elts : list expr)
| Unsupported (dump : string).

Record runtime (world : Type) : Type := mkruntime {
  (* isinstance(o, list) and len(o) == 0, for an object of the state *)
  obj_empty_list : world -> nat -> bool;
  (* isinstance(o, _numeric_types): float, list, tuple, ndarray, generic *)
  obj_numeric : nat -> bool;
  (* isinstance(o, np.ndarray) *)
  obj_ndarray : nat -> bool;
  (* str(v) and type(v).__name__ *)
  py_str : world -> value -> string;
  py_typename : value -> string;
  (* getattr(v, a); None when hasattr(v, a) is False *)
  py_getattr : world -> value -> string -> option value;
  py_callable : value -> bool;
  (* f(args, keywords): a call may change the state *)
  py_call : world -> value -> list value -> list (string * value)
            -> result value * world;
  (* the functions of the operator module, np.matmul and v[i] *)
  py_binop : world -> binop -> value -> value -> result value;
  py_neg : world -> value -> result value;
  py_matmul : world -> value -> value -> result value;
  py_getitem : world -> value -> value -> result value;
  (* ast.parse(s, mode='eval').body and ast.literal_eval(s) *)
  ast_parse : string -> result expr;
  literal_eval : string -> result value;
  (* result.tolist() for an array *)
  py_tolist : world -> value -> value;
  (* a replacement field of str.format_map that is more than a name
     (a.b, a[0], a!r, a:>8): from the text after the opening brace, the
     replacement and the number of characters before the closing brace
     of the field *)
  format_compound : world -> pydict -> string -> result (string * nat)
}.

(** ** struct: fields *)

Section Registry.

Variable world : Type.
Variable rt : runtime world.

(* isinstance(value, list) and len(value) == 0 *)
Definition is_empty_list (w : world) (v : value) : bool :=
  match v with
  | VList [] => true
  | VObj o => obj_empty_list rt w o
  | _ => false
  end.

Definition excluded (k : string) : bool := mem_string k _excludedattr.

Definition keys (s : struct) : list string :=
  filter (fun k => negb (excluded k)) (map fst (__dict__ s)).

(* pstr.eval is the identity on values that are not paths *)
Definition values (s : struct) : list value :=
  map snd (filter (fun kv => negb (excluded (fst kv))) (__dict__ s)).

Definition items (s : struct) : list (string * value) :=
  combine (keys s) (values s).

Definition len (s : struct) : nat := List.length (keys s).

(* the class attribute _propertyasattribute; no class of the module
   turns it on *)
Definition _propertyasattribute : bool := false.

Definition is_property (c : pyclass) (k : string) : bool :=
  mem_string k ["isempty"; "isexpression"].

Definition hasattr (s : struct) (key : string) : bool :=
  dict_mem (__dict__ s) key
  || (_propertyasattribute && negb (excluded key)
      && is_property (cls s) key).

(* the property branch of getattr needs _propertyasattribute *)
Definition getattr (s : struct) (key : string) : result value :=
  match dict_get (__dict__ s) key with
  | Some v => Ok v
  | None =>
      Raise AttributeError
        ("the " ++ _ftype (cls s) ++ " " ++ key ++ " does not exist")
  end.

Definition __delattr__ (s : struct) (key : string) : result struct :=
  if excluded key then
    Raise AttributeError ("Cannot delete excluded attribute " ++ key)
  else if mem_string key (class_dict (cls s)) then
    Raise AttributeError ("Cannot delete class attribute " ++ key)
  else if dict_mem (__dict__ s) key then
    Ok (mkstruct (cls s) (dict_del (__dict__ s) key))
  else
    Raise AttributeError (_type (cls s) ++ " has no attribute " ++ key).

Definition setattr (w : world) (s : struct) (key : string) (v : value)
  : result struct :=
  if is_empty_list w v && hasattr s key then __delattr__ s key
  else Ok (mkstruct (cls s) (dict_set (__dict__ s) key v)).

(** ** struct.fromkeysvalues *)

(* the first loop: for ik in range(nk), with the running index iv *)
Fixpoint fkv_named (w : world) (s : struct) (ks : list string)
  (vals : list value) (iv : nat) : result struct :=
  match ks with
  | [] => Ok s
  | k :: ks' =>
      match nth_error vals iv with
      | None => Raise IndexError "list index out of range"
      | Some v =>
          s' <- setattr w s k v ;;
          fkv_named w s' ks' vals (Nat.min (List.length vals - 1) (iv + 1))
      end
  end.

(* the second loop: for ik in range(nk, nv), over the values from nk on *)
Fixpoint fkv_auto (w : world) (s : struct) (ik : nat) (rest : list value)
  : result struct :=
  match rest with
  | [] => Ok s
  | v :: rest' =>
      s' <- setattr w s ("key" ++ str_of_nat ik) v ;;
      fkv_auto w s' (S ik) rest'
  end.

Definition fromkeysvalues (w : world) (ks : list string)
  (vals : list value) (makeparam : bool) : result struct :=
  let nk := List.length ks in
  let nv := List.length vals in
  let s := new_like makeparam in
  if (0 <? nk)%nat && (0 <? nv)%nat then
    s' <- fkv_named w s ks vals 0 ;;
    fkv_auto w s' nk (skipn nk vals)
  else Ok s.

(** ** struct.__getitem__ and __setitem__ *)

(* s[idx] for an integer *)
Definition getitem_int (s : struct) (idx : Z) : result value :=
  if (idx <? Z.of_nat (len s))%Z then
    match list_index (keys s) idx with
    | Some k => getattr s k
    | None => Raise IndexError "list index out of range"
    end
  else
    Raise IndexError
      ("the " ++ _ftype (cls s)
       ++ " index should be comprised between 0 and "
       ++ str_of_nat (len s - 1)).

(* s[:i] *)
Definition getitem_upto (w : world) (s : struct) (i : nat)
  : result struct :=
  fromkeysvalues w (firstn i (keys s)) (firstn i (values s)) false.

(* s[[i1, i2, ...]] for a list of non-negative integers *)
Fixpoint getitem_list_loop (w : world) (k : list string) (v : list value)
  (acc : struct) (idx : list nat) : result struct :=
  match idx with
  | [] => Ok acc
  | i :: idx' =>
      match nth_error k i, nth_error v i with
      | Some ki, Some vi =>
          acc' <- setattr w acc ki vi ;;
          getitem_list_loop w k v acc' idx'
      | _, _ =>
          Raise IndexError
            ("idx must contains only integers ranged between 0 and "
             ++ str_of_nat (List.length k - 1))
      end
  end.

Definition getitem_list (w : world) (s : struct) (idx : list nat)
  : result struct :=
  getitem_list_loop w (keys s) (values s) (new_like (isparam s)) idx.

(* s[idx] = value for an integer idx *)
Definition setitem_int (w : world) (s : struct) (idx : Z) (v : value)
  : result struct :=
  if (idx <? Z.of_nat (len s))%Z then
    match list_index (keys s) idx with
    | Some k => setattr w s k v
    | None => Raise IndexError "list index out of range"
    end
  else
    Raise IndexError
      ("the " ++ _ftype (cls s)
       ++ " index should be comprised between 0 and "
       ++ str_of_nat (len s - 1)).

(** ** struct: copies, union, iteration *)

(* dup = duplicate(self); dup.__dict__.update(s.__dict__)
   (sortdefinitions=False, the default of the operator) *)
Definition __add__ (self s : struct) : struct :=
  mkstruct (cls self) (dict_update (__dict__ self) (__dict__ s)).

(* for k in self.keys(): delattr(self, k) *)
Fixpoint clear_loop (s : struct) (ks : list string) : result struct :=
  match ks with
  | [] => Ok s
  | k :: ks' => s' <- __delattr__ s k ;; clear_loop s' ks'
  end.

Definition clear (s : struct) : result struct := clear_loop s (keys s).

(* list(s): __iter__ and __next__ return s[0], s[1], ..., s[len(s)-1] *)
Fixpoint list_loop (s : struct) (idx : list nat) : result (list value) :=
  match idx with
  | [] => Ok []
  | i :: idx' =>
      v <- getitem_int s (Z.of_nat i) ;;
      vs <- list_loop s idx' ;;
      Ok (v :: vs)
  end.

Definition struct_list (s : struct) : result (list value) :=
  list_loop s (seq 0 (len s)).

(* truth value of an object; an object of the state counts as true *)
Definition truthy (v : value) : bool :=
  match v with
  | VNone => false
  | VBool b => b
  | VInt z => negb (z =? 0)%Z
  | VStr s => negb (String.eqb s EmptyString)
  | VList l | VTuple l => match l with [] => false | _ => true end
  | _ => true
  end.

(* all(l) *)
Definition all (l : list value) : bool := forallb truthy l.

(** ** struct: expressions and their dependencies *)

Definition isstrexpression (s : string) : bool := search_placeholder s.

(* uniq: the placeholders of s in order of first occurrence *)
Fixpoint uniq_loop (found uniq : list string) : list string :=
  match found with
  | [] => uniq
  | x :: found' =>
      if mem_string x uniq then uniq_loop found' uniq
      else uniq_loop found' (uniq ++ [x])%list
  end.

(* tmp.fromkeys(uniq) is tmp + struct(k1=None, k2=None, ...) *)
Definition fromkeys (self : struct) (ks : list string) : struct :=
  __add__ self (struct_init (map (fun k => (k, VNone)) ks)).

Definition scan (s : string) : struct :=
  fromkeys (struct_init []) (uniq_loop (findall_placeholders 0 s) []).

(* struct.isexpression: the same fields, True where the value is a text
   that contains an expression *)
Fixpoint isexpression_loop (w : world) (s : struct)
  (kvs : list (string * value)) : result struct :=
  match kvs with
  | [] => Ok s
  | (k, v) :: kvs' =>
      s' <- setattr w s k
              (VBool (match v with
                      | VStr t => isstrexpression t
                      | _ => false
                      end)) ;;
      isexpression_loop w s' kvs'
  end.

Definition isexpression (w : world) (self : struct) : result struct :=
  isexpression_loop w (new_like (isparam self)) (items self).

Definition isstrdefined (s : string) (ref : struct) : bool :=
  if isstrexpression s then forallb (hasattr ref) (keys (scan s))
  else false.

(* the loop of isdefined(ref=None) over i in range(nk) *)
Fixpoint isdefined_loop (w : world) (self s : struct) (k : list string)
  (v isexpr : list value) (idx : list nat) : result struct :=
  match idx with
  | [] => Ok s
  | i :: idx' =>
      match nth_error k i, nth_error v i, nth_error isexpr i with
      | Some ki, Some vi, Some ei =>
          s' <- (if truthy ei then
                   match vi with
                   | VStr t =>
                       ref <- getitem_upto w self i ;;
                       setattr w s ki (VBool (isstrdefined t ref))
                   | _ => Raise TypeError "s must a string"
                   end
                 else setattr w s ki (VBool true)) ;;
          isdefined_loop w self s' k v isexpr idx'
      | _, _, _ => Raise IndexError "list index out of range"
      end
  end.

Definition isdefined (w : world) (self : struct) : result struct :=
  e <- isexpression w self ;;
  isdefined_loop w self (new_like (isparam self)) (keys self) (values self)
    (values e) (seq 0 (len self)).

(** ** struct.sortdefinitions *)

(* find and findnot: the indices where the flag is true, or false *)
Fixpoint find_flags (want : bool) (i : nat) (l : list value) : list nat :=
  match l with
  | [] => []
  | x :: l' =>
      if Bool.eqb (truthy x) want then i :: find_flags want (S i) l'
      else find_flags want (S i) l'
  end.

(* [ l[i] for i in idx ] *)
Fixpoint select {A : Type} (l : list A) (idx : list nat) : result (list A) :=
  match idx with
  | [] => Ok []
  | i :: idx' =>
      match nth_error l i with
      | Some x => xs <- select l idx' ;; Ok (x :: xs)
      | None => Raise IndexError "list index out of range"
      end
  end.

Record sortstate : Type := mksortstate {
  current : struct;       (* accepted fields, in evaluation order *)
  dynamic : struct;       (* expressions still pending *)
  anychange : bool;
  errorfound : bool;
  printed : list string   (* the warnings printed so far *)
}.

(* the inner loop: while itst < nmissing and not found.
   count is nmissing - itst; last holds teststruct and ifound as the
   previous round left them *)
Fixpoint try_pending (w : world) (cur dyn : struct) (itst count : nat)
  (last : struct * nat) : result (struct * nat * bool) :=
  match count with
  | O => Ok (fst last, snd last, false)
  | S count' =>
      one <- getitem_list w dyn [itst] ;;
      let teststruct := __add__ cur one in
      d <- isdefined w teststruct ;;
      l <- struct_list d ;;
      if all l then Ok (teststruct, itst, true)
      else try_pending w cur dyn (S itst) count' (teststruct, itst)
  end.

Definition unable_msg (nmissing total : nat) (c : pyclass) : string :=
  "unable to interpret " ++ str_of_nat nmissing ++ "/" ++ str_of_nat total
  ++ " expressions in " ++ dquote ++ _ftype c ++ "s" ++ dquote.

(* one round of: while nmissing *)
Definition sort_round (w : world) (raiseerror silentmode : bool)
  (self : struct) (nmissing : nat) (st : sortstate) : result sortstate :=
  r <- try_pending w (current st) (dynamic st) 0 nmissing (current st, 0) ;;
  let '(teststruct, ifound, found) := r in
  if found then
    dyn' <- setitem_int w (dynamic st) (Z.of_nat ifound) (VList []) ;;
    Ok (mksortstate teststruct dyn' true (errorfound st) (printed st))
  else if raiseerror then
    Raise KeyError (unable_msg nmissing (len self) (cls self))
  else
    let out :=
      if negb (errorfound st) && negb silentmode
      then app (printed st)
             ["WARNING: " ++ unable_msg nmissing (len self) (cls self)]
      else printed st in
    dyn' <- setitem_int w (dynamic st) (Z.of_nat ifound) (VList []) ;;
    Ok (mksortstate teststruct dyn' (anychange st) true out).

Fixpoint sort_loop (w : world) (raiseerror silentmode : bool)
  (self : struct) (nmissing : nat) (st : sortstate) : result sortstate :=
  match nmissing with
  | O => Ok st
  | S n =>
      st' <- sort_round w raiseerror silentmode self nmissing st ;;
      sort_loop w raiseerror silentmode self n st'
  end.

(* for i in range(len(k)): self.setattr(k[i], v[i]) *)
Fixpoint assign_loop (w : world) (s : struct) (kvs : list (string * value))
  : result struct :=
  match kvs with
  | [] => Ok s
  | (k, v) :: kvs' => s' <- setattr w s k v ;; assign_loop w s' kvs'
  end.

(* the method changes self in place: the result is self afterwards,
   with what was printed *)
Definition sortdefinitions (w : world) (self : struct)
  (raiseerror silentmode : bool) : result (struct * list string) :=
  let k := keys self in
  let v := values self in
  e <- isexpression w self ;;
  let isexpr := values e in
  let istatic := find_flags false 0 isexpr in
  let idynamic := find_flags true 0 isexpr in
  ks <- select k istatic ;;
  vs <- select v istatic ;;
  static <- fromkeysvalues w ks vs false ;;
  kd <- select k idynamic ;;
  vd <- select v idynamic ;;
  dyn <- fromkeysvalues w kd vd false ;;
  st <- sort_loop w raiseerror silentmode self (len dyn)
          (mksortstate static dyn false false []) ;;
  if anychange st then
    cleared <- clear self ;;
    sorted <- assign_loop w cleared (items (current st)) ;;
    Ok (sorted, printed st)
  else Ok (self, printed st).

End Registry.

(** ** struct.format, SafeEvaluator, param *)

Section Evaluation.

Variable world : Type.
Variable rt : runtime world.

(* a computation that may raise and may change the interpreter state *)
Definition M (A : Type) : Type := world -> result A * world.

Definition ret {A : Type} (a : A) : M A := fun w => (Ok a, w).

Definition raise {A : Type} (k : exn_kind) (m : string) : M A :=
  fun w => (Raise k m, w).

Definition bindM {A B : Type} (c : M A) (f : A -> M B) : M B :=
  fun w =>
    match c w with
    | (Ok a, w') => f a w'
    | (Raise k m, w') => (Raise k m, w')
    end.

(* a computation that only reads the state *)
Definition lift {A : Type} (f : world -> result A) : M A :=
  fun w => (f w, w).

Local Notation "x <~ c ;; k" := (bindM c (fun x => k))
  (at level 61, c at next level, right associativity).

(** *** str.format_map(AttrErrorDict(d)) *)

Inductive field_scan : Type :=
| FPlain (name rest : string)   (* a name, and the text after its brace *)
| FCompound                     (* an index, attribute, conversion, spec *)
| FBad (m : string).

(* the replacement field whose opening brace has just been read *)
Fixpoint scan_field (s : string) : field_scan :=
  match s with
  | EmptyString => FBad "expected '}' before end of string"
  | String c s' =>
      if Ascii.eqb c "}"%char then FPlain EmptyString s'
      else if Ascii.eqb c "{"%char then FBad "unexpected '{' in field name"
      else if Ascii.eqb c "["%char || Ascii.eqb c ":"%char
              || Ascii.eqb c "!"%char || Ascii.eqb c "."%char
           then FCompound
           else match scan_field s' with
                | FPlain name rest => FPlain (String c name) rest
                | other => other
                end
  end.

(* AttrErrorDict.__getitem__ followed by format(value, '') *)
Definition lookup_field (w : world) (d : pydict) (name : string)
  : result string :=
  if all_digits name then
    Raise ValueError "Format string contains positional fields"
  else match dict_get d name with
       | Some v => Ok (py_str rt w v)
       | None => Raise AttributeError ("Attribute '" ++ name ++ "' not found")
       end.

Fixpoint format_map_loop (fuel : nat) (w : world) (d : pydict) (s : string)
  : result string :=
  match fuel with
  | O => Ok EmptyString
  | S fuel' =>
      match s with
      | EmptyString => Ok EmptyString
      | String c s' =>
          if Ascii.eqb c "{"%char then
            match s' with
            | EmptyString =>
                Raise ValueError "Single '{' encountered in format string"
            | String c2 s'' =>
                if Ascii.eqb c2 "{"%char then
                  r <- format_map_loop fuel' w d s'' ;; Ok (String c r)
                else
                  match scan_field s' with
                  | FPlain name rest =>
                      t <- lookup_field w d name ;;
                      r <- format_map_loop fuel' w d rest ;;
                      Ok (t ++ r)
                  | FCompound =>
                      tn <- format_compound rt w d s' ;;
                      r <- format_map_loop fuel' w d (drop (S (snd tn)) s') ;;
                      Ok (fst tn ++ r)
                  | FBad m => Raise ValueError m
                  end
            end
          else if Ascii.eqb c "}"%char then
            match s' with
            | EmptyString =>
                Raise ValueError "Single '}' encountered in format string"
            | String c2 s'' =>
                if Ascii.eqb c2 "}"%char then
                  r <- format_map_loop fuel' w d s'' ;; Ok (String c r)
                else
                  Raise ValueError "Single '}' encountered in format string"
            end
          else r <- format_map_loop fuel' w d s' ;; Ok (String c r)
      end
  end.

Definition format_map (w : world) (d : pydict) (s : string) : result string :=
  format_map_loop (S (String.length s)) w d s.

(* struct.format(s, escape, raiseerror); the warning it prints is not
   part of the result *)
Definition format (w : world) (self : struct) (s : string)
  (escape raiseerror : bool) : result string :=
  let r := format_map w (__dict__ self)
             (if escape then s else replace "${" "{" s) in
  if raiseerror then
    match r with
    | Ok t => Ok t
    | Raise AttributeError _ => Ok (replace "{" "${" s)
    | Raise _ _ => Raise RuntimeError EmptyString
    end
  else r.

(** *** SafeEvaluator *)

Definition math_names : list string :=
  ["sin"; "cos"; "tan"; "asin"; "acos"; "atan"; "atan2"; "radians";
   "degrees"; "exp"; "log"; "log10"; "pow"; "sqrt"; "ceil"; "floor";
   "fmod"; "modf"; "fabs"; "hypot"; "pi"; "e"].

Definition random_names : list string :=
  ["gauss"; "uniform"; "randint"; "choice"].

(* SafeEvaluator.__init__: self.context *)
Definition SafeEvaluator (context : struct) : pydict :=
  dict_set
    (dict_update
       (dict_update (items context)
          (map (fun n => (n, VBuiltin n)) math_names))
       (map (fun n => (n, VBuiltin n)) random_names))
    "np" (VBuiltin "np").

(* self.operators *)
Definition in_operators (op : binop) : bool :=
  match op with
  | Add | Sub | Mult | Div | FloorDiv | Mod | Pow => true
  | MatMult | OtherBinop => false
  end.

Definition is_ndarray (v : value) : bool :=
  match v with VObj o => obj_ndarray rt o | _ => false end.

Definition is_matmult (op : binop) : bool :=
  match op with MatMult => true | _ => false end.

Fixpoint visit (ctx : pydict) (node : expr) {struct node} : M value :=
  let visit_all :=
    fix go (es : list expr) : M (list value) :=
      match es with
      | [] => ret []
      | e :: es' => v <~ visit ctx e ;; vs <~ go es' ;; ret (v :: vs)
      end in
  let visit_keywords :=
    fix go (kws : list (string * expr)) : M (list (string * value)) :=
      match kws with
      | [] => ret []
      | (k, e) :: kws' =>
          v <~ visit ctx e ;; vs <~ go kws' ;; ret ((k, v) :: vs)
      end in
  let visit_opt := fun (o : option expr) =>
    match o with
    | Some e => visit ctx e
    | None => ret VNone
    end in
  match node with
  | Name id =>
      match dict_get ctx id with
      | Some v => ret v
      | None =>
          raise ValueError
            ("Variable or function '" ++ id ++ "' is not defined")
      end
  | Constant v => ret v
  | BinOp l op r =>
      left <~ visit ctx l ;;
      right <~ visit ctx r ;;
      if is_ndarray left && is_ndarray right && is_matmult op then
        lift (fun w => py_matmul rt w left right)
      else if in_operators op then
        lift (fun w => py_binop rt w op left right)
      else raise ValueError "Unsupported operator"
  | UnaryOp op e =>
      operand <~ visit ctx e ;;
      match op with
      | USub => lift (fun w => py_neg rt w operand)
      | OtherUnop => raise ValueError "Unsupported unary operator"
      end
  | Call f args keywords =>
      func <~ visit ctx f ;;
      if py_callable rt func then
        a <~ visit_all args ;;
        kw <~ visit_keywords keywords ;;
        (fun w => py_call rt w func a kw)
      else raise ValueError "Function is not callable"
  | Attribute e attr =>
      v <~ visit ctx e ;;
      fun w =>
        match py_getattr rt w v attr with
        | Some a =>
            if String.eqb attr "T" && is_ndarray v then (Ok a, w)
            else if String.eqb attr "@" && is_ndarray v
                 then (py_matmul rt w v v, w)
                 else (Ok a, w)
        | None =>
            (Raise ValueError
               ("Object '" ++ py_str rt w v ++ "' has no attribute '"
                ++ attr ++ "'"), w)
        end
  | Subscript e sl =>
      v <~ visit ctx e ;;
      slice_obj <~ visit ctx sl ;;
      fun w =>
        match py_getitem rt w v slice_obj with
        | Ok x => (Ok x, w)
        | Raise _ m =>
            (Raise ValueError
               ("Invalid index " ++ py_str rt w slice_obj
                ++ " for object of type " ++ py_typename rt v ++ ": " ++ m),
             w)
        end
  | Slice lo up st =>
      lower <~ visit_opt lo ;;
      upper <~ visit_opt up ;;
      step <~ visit_opt st ;;
      ret (VSlice lower upper step)
  | TupleE elts => vs <~ visit_all elts ;; ret (VTuple vs)
  | ListE elts => vs <~ visit_all elts ;; ret (VList vs)
  | Unsupported dump => raise ValueError ("Unsupported expression: " ++ dump)
  end.

(* SafeEvaluator.evaluate *)
Definition evaluate (ctx : pydict) (expression : string) : M value :=
  fun w =>
    match ast_parse rt expression with
    | Ok tree => visit ctx tree w
    | Raise k m => (Raise k m, w)
    end.

(** *** param.escape, param.protect *)

Fixpoint escape_loop (fuel : nat) (s se : string) (start : nat)
  : string * nat :=
  match fuel with
  | O => (se, start)
  | S fuel' =>
      match find s "\${" start with
      | None => (se, start)
      | Some pos0 =>
          match find s "}" pos0 with
          | None => (se, start)
          | Some pos1 =>
              escape_loop fuel' s
                (se ++ replace "${" "{" (slice s start pos0) ++ "${{"
                 ++ slice s (pos0 + 3) pos1 ++ "}}")
                (pos1 + 1)
          end
      end
  end.

Definition escape (s : string) : string * bool :=
  let '(se, start) := escape_loop (S (String.length s)) s EmptyString 0 in
  (se ++ replace "${" "{" (drop start s), (0 <? start)%nat).

(* the order of sorted(zip(l, klist), reverse=True) on (length, key) *)
Definition key_ge (a b : string) : bool :=
  if (String.length a =? String.length b)%nat then negb (String.ltb a b)
  else (String.length b <? String.length a)%nat.

Fixpoint insert_desc (k : string) (l : list string) : list string :=
  match l with
  | [] => [k]
  | x :: l' => if key_ge k x then k :: l else x :: insert_desc k l'
  end.

Definition keyssorted (self : struct) : list string :=
  fold_right insert_desc [] (keys self).

(* the two pound signs that stand for an escaped dollar *)
Definition pounds : string :=
  String (ascii_of_nat 163) (String (ascii_of_nat 163) EmptyString).

Definition protect (self : struct) (s : string) : string * bool :=
  let t := replace "\$" pounds s in
  let escape := negb (String.eqb t s) in
  let t1 :=
    fold_left (fun t k => replace ("$" ++ k) ("${" ++ k ++ "}") t)
      (keyssorted self) t in
  (if escape then replace pounds "\$" t1 else t1, escape).

(** *** param.safe_fstring *)

Definition process_template (valuesafe : string) : string :=
  strip (replace "^" "**" (strip_comments_from true false (strip valuesafe))).

Definition serialize_result (w : world) (v : value) : string :=
  if is_ndarray v then py_str rt w (py_tolist rt w v) else py_str rt w v.

(* pattern.sub(replacer, s) *)
Fixpoint sub_placeholders (ctx : pydict) (skip : nat) (s : string)
  (w : world) : string * world :=
  match s with
  | EmptyString => (EmptyString, w)
  | String c s' =>
      match skip with
      | S k => sub_placeholders ctx k s' w
      | O =>
          let verbatim :=
            let '(rest, w1) := sub_placeholders ctx 0 s' w in
            (String c rest, w1) in
          if prefix "${" s then
            match expr_span (drop 2 s) with
            | Some n =>
                let '(r, w1) := evaluate ctx (substring 2 n s) w in
                let text :=
                  match r with
                  | Ok v => serialize_result w1 v
                  | Raise _ m => "<Error: " ++ m ++ ">"
                  end in
                let '(rest, w2) := sub_placeholders ctx (n + 2) s' w1 in
                (text ++ rest, w2)
            | None => verbatim
            end
          else verbatim
      end
  end.

Definition safe_fstring (template : string) (context : struct)
  : M string :=
  fun w =>
    let '(t, w') :=
      sub_placeholders (SafeEvaluator context) 0
        (process_template template) w in
    (Ok t, w').

(** *** param.eval *)

(* isinstance(value, _numeric_types) *)
Definition numeric (v : value) : bool :=
  match v with
  | VBool _ | VInt _ | VStr _ | VList _ | VTuple _ => true
  | VObj o => obj_numeric rt o
  | _ => false
  end.

(* self._protection, self._evaluation: bound by param.__init__ *)
Definition read_flag (self : struct) (name : string) : result bool :=
  match dict_get (__dict__ self) name with
  | Some v => Ok (truthy v)
  | None =>
      Raise AttributeError
        ("the " ++ _ftype (cls self) ++ " " ++ name ++ " does not exist")
  end.

(* self._returnerror: the class attribute is True *)
Definition _returnerror (self : struct) : bool :=
  match dict_get (__dict__ self) "_returnerror" with
  | Some v => truthy v
  | None => true
  end.

(* e.__class__.__name__ *)
Definition exn_name (k : exn_kind) : string :=
  match k with
  | KeyError => "KeyError" | NameError => "NameError"
  | SyntaxError => "SyntaxError" | TypeError => "TypeError"
  | ValueError => "ValueError" | IndexError => "IndexError"
  | AttributeError => "AttributeError" | RuntimeError => "RuntimeError"
  | OtherError => "Exception"
  end.

Definition store (tmp : struct) (key : string) (v : value) : M struct :=
  lift (fun w => setattr rt w tmp key v).

(* the branch of a text that starts with an exclamation mark:
   try / except (SyntaxError, ValueError) *)
Definition eval_literal (tmp : struct) (key valuesafe : string) : M struct :=
  fun w =>
    let item_of (item : value) : value :=
      match item with
      | VStr it =>
          if negb (startswith (strip it) "$") then
            match format w tmp it false false with
            | Ok t => VStr t
            | Raise k m =>
                VStr ("Error in <" ++ it ++ ">: " ++ exn_name k
                      ++ " - " ++ m)
            end
          else item
      | _ => item
      end in
    let body :=
      vtmp <- literal_eval rt (drop 1 valuesafe) ;;
      setattr rt w tmp key
        (match vtmp with
         | VList l => VList (map item_of l)
         | _ => vtmp
         end) in
    match body with
    | Raise SyntaxError m =>
        store tmp key
          (VStr ("Error: " ++ exn_name SyntaxError ++ " - " ++ m)) w
    | Raise ValueError m =>
        store tmp key
          (VStr ("Error: " ++ exn_name ValueError ++ " - " ++ m)) w
    | r => (r, w)
    end.

(* SafeEvaluator(tmp).evaluate(resstr), and what is stored when it fails *)
Definition store_evaluated (tmp : struct) (key resstr fallback : string)
  : M struct :=
  fun w =>
    match evaluate (SafeEvaluator tmp) resstr w with
    | (Ok reseval, w') => store tmp key reseval w'
    | (Raise _ _, w') => store tmp key (VStr fallback) w'
    end.

(* the branch of full evaluation: try / except / else *)
Definition eval_full (self tmp : struct)
  (key value valuesafe valuesafe_priorescape : string) : M struct :=
  fun w =>
    match format w tmp valuesafe false false with
    | Ok resstr =>
        store_evaluated tmp key resstr
          (replace (String newline EmptyString) "," resstr) w
    | Raise KeyError m | Raise NameError m =>
        if _returnerror self then
          store tmp key
            (VStr ("< undef " ++ _ftype (cls self) ++ " " ++ dquote ++ "${"
                   ++ replace squote EmptyString m ++ "}" ++ dquote ++ " >"))
            w
        else store tmp key (VStr value) w
    | Raise SyntaxError m | Raise TypeError m | Raise ValueError m =>
        store tmp key (VStr ("ERROR < " ++ m ++ " >")) w
    | Raise IndexError _ | Raise AttributeError _ =>
        match safe_fstring valuesafe_priorescape tmp w with
        | (Ok resstr, w') => store_evaluated tmp key resstr resstr w'
        | (Raise _ m, w') =>
            store tmp key (VStr ("Index Error < " ++ m ++ " >")) w'
        end
    | Raise _ m =>
        store tmp key (VStr ("Error in ${}: < " ++ m ++ " >")) w
    end.

(* the text of a field as the if / elif chain of eval sees it:
   valuesafe, valuesafe_priorescape and escape *)
Definition prepare (self : struct) (prot : bool) (value : string)
  : string * string * bool :=
  let '(valuesafe0, escape0) :=
    if prot then protect self value else (value, false) in
  let '(valuesafe1, escape1) := escape valuesafe0 in
  let valuesafe2 := replace "^" "**" valuesafe1 in
  let valuesafe :=
    match find valuesafe2 "#" 0 with
    | Some (S p) => strip (slice valuesafe2 0 (S p))
    | _ => valuesafe2
    end in
  (valuesafe, valuesafe0, escape1 || escape0).

(* the branch that the if / elif chain takes *)
Inductive branch : Type :=
| NoEvaluation     (* not self._evaluation *)
| LiteralEval      (* the text starts with an exclamation mark *)
| Verbatim         (* it starts with a dollar or a percent sign *)
| EmptyText
| Escaped          (* partial evaluation *)
| FullEvaluation.

Definition branch_of (evaluation : bool) (valuesafe : string) (esc : bool)
  : branch :=
  if negb evaluation then NoEvaluation
  else if startswith valuesafe "!" then LiteralEval
  else if startswith valuesafe "$" && negb esc then Verbatim
  else if startswith valuesafe "%" then Verbatim
  else if String.eqb valuesafe EmptyString then EmptyText
  else if esc then Escaped
  else FullEvaluation.

(* whether a text is handled by the try / except of full evaluation
   (an empty text, which is stored as it is, included) *)
Definition full_branch (self : struct) (prot evaluation : bool)
  (value : string) : bool :=
  let '(valuesafe, _, esc) := prepare self prot value in
  match branch_of evaluation valuesafe esc with
  | FullEvaluation | EmptyText => true
  | _ => false
  end.

(* the body of the loop of eval for a text *)
Definition eval_text (self tmp : struct) (protection : bool)
  (key value : string) : M struct :=
  prot <~ lift (fun _ => if protection then Ok true
                         else read_flag self "_protection") ;;
  let '(valuesafe, valuesafe_priorescape, esc) := prepare self prot value in
  evaluation <~ lift (fun _ => read_flag self "_evaluation") ;;
  match branch_of evaluation valuesafe esc with
  | NoEvaluation =>
      t <~ lift (fun w => format w tmp valuesafe esc true) ;;
      store tmp key (VStr t)
  | LiteralEval => eval_literal tmp key valuesafe
  | Verbatim =>
      t <~ lift (fun w =>
                   format w tmp (lstrip (drop 1 valuesafe)) false true) ;;
      store tmp key (VStr t)
  | EmptyText => store tmp key (VStr valuesafe)
  | Escaped =>
      t <~ lift (fun w => format w tmp valuesafe true true) ;;
      store tmp key (VStr t)
  | FullEvaluation =>
      eval_full self tmp key value valuesafe valuesafe_priorescape
  end.

(* one round of: for key, value in self.items() *)
Definition eval_field (self tmp : struct) (protection : bool)
  (key : string) (v : value) : M struct :=
  match v with
  | VStr text => eval_text self tmp protection key text
  | _ =>
      if numeric v then store tmp key v
      else ret tmp   (* unsupported type: a message is printed *)
  end.

Fixpoint eval_loop (self tmp : struct) (protection : bool)
  (kvs : list (string * value)) : M struct :=
  match kvs with
  | [] => ret tmp
  | (key, v) :: kvs' =>
      tmp' <~ eval_field self tmp protection key v ;;
      eval_loop self tmp' protection kvs'
  end.

Definition eval (self : struct) (protection : bool) : M struct :=
  eval_loop self (struct_init []) protection (items self).

End Evaluation.

(** ** A runtime for the examples

    The fragment of the interpreter that the worked examples exercise:
    integers and texts, lists shared through the state ([VObj o] is the
    list at address [o]), and the expressions made of integers, names,
    [+ - *], parentheses, attribute access and calls.  On the fragment
    it answers as Python does; it is not meant to answer anything about
    the rest of the language. *)

Module Sample.

(* the state: the contents of the shared lists *)
Definition heap : Type := list (list value).

Definition str_of_Z (z : Z) : string := NilZero.string_of_int (Z.to_int z).

Fixpoint heap_set (h : heap) (o : nat) (l : list value) : heap :=
  match h, o with
  | [], _ => []
  | _ :: h', O => l :: h'
  | x :: h', S o' => x :: heap_set h' o' l
  end.

Definition s_str (h : heap) (v : value) : string :=
  match v with
  | VNone => "None"
  | VBool true => "True"
  | VBool false => "False"
  | VInt z => str_of_Z z
  | VStr s => s
  | _ => "<object>"
  end.

Definition s_typename (v : value) : string :=
  match v with
  | VNone => "NoneType" | VBool _ => "bool" | VInt _ => "int"
  | VStr _ => "str" | VList _ => "list" | VTuple _ => "tuple"
  | VSlice _ _ _ => "slice" | VAttrSet => "set" | VObj _ => "list"
  | VBuiltin _ | VMethod _ _ => "builtin_function_or_method"
  end.

Definition s_getattr (h : heap) (v : value) (attr : string)
  : option value :=
  match v with
  | VObj o =>
      if String.eqb attr "append" then Some (VMethod v "append") else None
  | VInt z =>
      if String.eqb attr "real" then Some (VInt z)
      else if String.eqb attr "numerator" then Some (VInt z)
      else if String.eqb attr "imag" then Some (VInt 0)
      else if String.eqb attr "denominator" then Some (VInt 1)
      else None
  | _ => None
  end.

Definition s_callable (v : value) : bool :=
  match v with
  | VMethod _ _ => true
  | VBuiltin n => negb (mem_string n ["pi"; "e"; "np"])
  | _ => false
  end.

Definition s_call (h : heap) (f : value) (args : list value)
  (kw : list (string * value)) : result value * heap :=
  match f, args, kw with
  | VMethod (VObj o) "append", [x], [] =>
      match nth_error h o with
      | Some l => (Ok VNone, heap_set h o (l ++ [x])%list)
      | None => (Raise OtherError "no such object", h)
      end
  | _, _, _ => (Raise TypeError "call outside the fragment", h)
  end.

Definition s_binop (h : heap) (op : binop) (a b : value) : result value :=
  match a, b with
  | VInt x, VInt y =>
      match op with
      | Add => Ok (VInt (x + y))
      | Sub => Ok (VInt (x - y))
      | Mult => Ok (VInt (x * y))
      | FloorDiv =>
          if (y =? 0)%Z
          then Raise OtherError "integer division or modulo by zero"
          else Ok (VInt (x / y))
      | Mod =>
          if (y =? 0)%Z
          then Raise OtherError "integer division or modulo by zero"
          else Ok (VInt (x mod y))
      | _ => Raise OtherError "operator outside the fragment"
      end
  | _, _ => Raise TypeError "unsupported operand type(s)"
  end.

Definition s_neg (h : heap) (a : value) : result value :=
  match a with
  | VInt x => Ok (VInt (- x))
  | _ => Raise TypeError "bad operand type for unary -"
  end.

Definition s_getitem (h : heap) (v i : value) : result value :=
  match v, i with
  | VObj o, VInt n =>
      match nth_error h o with
      | Some l =>
          match list_index l n with
          | Some x => Ok x
          | None => Raise IndexError "list index out of range"
          end
      | None => Raise OtherError "no such object"
      end
  | VList l, VInt n | VTuple l, VInt n =>
      match list_index l n with
      | Some x => Ok x
      | None => Raise IndexError "index out of range"
      end
  | _, _ => Raise TypeError "subscript outside the fragment"
  end.

(** *** A parser for the fragment *)

Inductive token : Type :=
| TInt (z : Z)
| TName (s : string)
| TSym (c : ascii).

Definition is_digit (c : ascii) : bool :=
  let n := nat_of_ascii c in ((48 <=? n) && (n <=? 57))%nat.

Definition is_name_start (c : ascii) : bool :=
  let n := nat_of_ascii c in
  ((65 <=? n) && (n <=? 90) || (97 <=? n) && (n <=? 122) || (n =? 95))%nat.

Definition is_name_char (c : ascii) : bool := is_name_start c || is_digit c.

(* the longest prefix of s whose characters satisfy p, and the rest *)
Fixpoint span (p : ascii -> bool) (s : string) : string * string :=
  match s with
  | EmptyString => (EmptyString, EmptyString)
  | String c s' =>
      if p c then let '(a, b) := span p s' in (String c a, b)
      else (EmptyString, s)
  end.

Fixpoint Z_of_digits (acc : Z) (s : string) : Z :=
  match s with
  | EmptyString => acc
  | String c s' =>
      Z_of_digits (10 * acc + Z.of_nat (nat_of_ascii c - 48)) s'
  end.

Fixpoint all_zero (s : string) : bool :=
  match s with
  | EmptyString => true
  | String c s' => Ascii.eqb c "0"%char && all_zero s'
  end.

Definition keywords : list string :=
  ["and"; "as"; "assert"; "async"; "await"; "break"; "class"; "continue";
   "def"; "del"; "elif"; "else"; "except"; "finally"; "for"; "from";
   "global"; "if"; "import"; "in"; "is"; "lambda"; "nonlocal"; "not";
   "or"; "pass"; "raise"; "return"; "try"; "while"; "with"; "yield";
   "True"; "False"; "None"].

Fixpoint tokenize (fuel : nat) (s : string) : option (list token) :=
  match fuel with
  | O => None
  | S fuel' =>
      match s with
      | EmptyString => Some []
      | String c s' =>
          if Ascii.eqb c " "%char then tokenize fuel' s'
          else if is_digit c then
            let '(ds, rest) := span is_digit s in
            if Ascii.eqb c "0"%char && negb (all_zero ds) then None
            else option_map (cons (TInt (Z_of_digits 0 ds)))
                   (tokenize fuel' rest)
          else if is_name_start c then
            let '(n, rest) := span is_name_char s in
            if mem_string n keywords then None
            else option_map (cons (TName n)) (tokenize fuel' rest)
          else option_map (cons (TSym c)) (tokenize fuel' s')
      end
  end.

Definition is_sym (c : ascii) (t : token) : bool :=
  match t with TSym c' => Ascii.eqb c c' | _ => false end.

(* recursive descent: a sum of products of unary terms; a unary term is
   a minus sign before a unary term, or an atom followed by trailers; an
   atom is an integer, a name or a sum in parentheses; a trailer is a dot
   and a name, or a list of arguments in parentheses *)
Fixpoint parse_sum (fuel : nat) (ts : list token)
  : option (expr * list token) :=
  match fuel with
  | O => None
  | S fuel' =>
      let parse_args :=
        fix args (n : nat) (ts : list token)
          : option (list expr * list token) :=
          match n with
          | O => None
          | S n' =>
              match parse_sum fuel' ts with
              | Some (e, TSym "," :: ts') =>
                  match args n' ts' with
                  | Some (es, ts'') => Some (e :: es, ts'')
                  | None => None
                  end
              | Some (e, TSym ")" :: ts') => Some ([e], ts')
              | _ => None
              end
          end in
      let parse_trailers :=
        fix trailers (n : nat) (e : expr) (ts : list token)
          : option (expr * list token) :=
          match n with
          | O => None
          | S n' =>
              match ts with
              | TSym "." :: TName a :: ts' => trailers n' (Attribute e a) ts'
              | TSym "(" :: TSym ")" :: ts' => trailers n' (Call e [] []) ts'
              | TSym "(" :: ts' =>
                  match parse_args fuel' ts' with
                  | Some (es, ts'') => trailers n' (Call e es []) ts''
                  | None => None
                  end
              | _ => Some (e, ts)
              end
          end in
      let parse_unary :=
        fix unary (n : nat) (ts : list token) : option (expr * list token) :=
          match n with
          | O => None
          | S n' =>
              match ts with
              | TSym "-" :: ts' =>
                  match unary n' ts' with
                  | Some (e, ts'') => Some (UnaryOp USub e, ts'')
                  | None => None
                  end
              | TInt z :: ts' => parse_trailers fuel' (Constant (VInt z)) ts'
              | TName x :: ts' => parse_trailers fuel' (Name x) ts'
              | TSym "(" :: ts' =>
                  match parse_sum fuel' ts' with
                  | Some (e, TSym ")" :: ts'') => parse_trailers fuel' e ts''
                  | _ => None
                  end
              | _ => None
              end
          end in
      let parse_prod_rest :=
        fix prod_rest (n : nat) (l : expr) (ts : list token)
          : option (expr * list token) :=
          match n with
          | O => None
          | S n' =>
              match ts with
              | TSym "*" :: ts' =>
                  match parse_unary fuel' ts' with
                  | Some (r, ts'') => prod_rest n' (BinOp l Mult r) ts''
                  | None => None
                  end
              | _ => Some (l, ts)
              end
          end in
      let parse_prod := fun ts =>
        match parse_unary fuel' ts with
        | Some (l, ts') => parse_prod_rest fuel' l ts'
        | None => None
        end in
      let parse_sum_rest :=
        fix sum_rest (n : nat) (l : expr) (ts : list token)
          : option (expr * list token) :=
          match n with
          | O => None
          | S n' =>
              match ts with
              | TSym "+" :: ts' =>
                  match parse_prod ts' with
                  | Some (r, ts'') => sum_rest n' (BinOp l Add r) ts''
                  | None => None
                  end
              | TSym "-" :: ts' =>
                  match parse_prod ts' with
                  | Some (r, ts'') => sum_rest n' (BinOp l Sub r) ts''
                  | None => None
                  end
              | _ => Some (l, ts)
              end
          end in
      match parse_prod ts with
      | Some (l, ts') => parse_sum_rest fuel' l ts'
      | None => None
      end
  end.

Definition s_parse (s : string) : result expr :=
  if prefix " " s then Raise SyntaxError "unexpected indent"
  else
    match tokenize (S (String.length s)) s with
    | Some ts =>
        match parse_sum (S (List.length ts)) ts with
        | Some (e, []) => Ok e
        | _ => Raise SyntaxError "invalid syntax"
        end
    | None => Raise SyntaxError "invalid syntax"
    end.

Definition s_literal_eval (s : string) : result value :=
  match s_parse (lstrip s) with
  | Ok (Constant v) => Ok v
  | Ok (UnaryOp USub (Constant (VInt z))) => Ok (VInt (- z))
  | Ok _ => Raise ValueError "malformed node or string"
  | Raise k m => Raise k m
  end.

Definition rt : runtime heap :=
  {| obj_empty_list := fun h o =>
       match nth_error h o with Some [] => true | _ => false end;
     obj_numeric := fun _ => true;
     obj_ndarray := fun _ => false;
     py_str := s_str;
     py_typename := s_typename;
     py_getattr := s_getattr;
     py_callable := s_callable;
     py_call := s_call;
     py_binop := s_binop;
     py_neg := s_neg;
     py_matmul := fun _ _ _ => Raise TypeError "matmul outside the fragment";
     py_getitem := s_getitem;
     ast_parse := s_parse;
     literal_eval := s_literal_eval;
     py_tolist := fun _ v => v;
     format_compound := fun _ _ _ =>
       Raise OtherError "compound field outside the fragment" |}.

End Sample.

(** * Notions used by the statements *)

Unset Implicit Arguments.
Open Scope list_scope.

(** ** Registries *)

(* the entries of an instance dictionary that keys(), values() and
   items() show *)
Definition user (d : pydict) : pydict :=
  filter (fun kv => negb (excluded (fst kv))) d.

(* a Python dict holds a key once *)
Definition wf (s : struct) : Prop := NoDup (map fst (__dict__ s)).

(* a dictionary with hidden entries only, as struct() and param() yield *)
Definition hidden_only (d : pydict) : Prop :=
  forall k, In k (map fst d) -> excluded k = true.

(* the names that fromkeysvalues gives to the values beyond the nk-th *)
Definition auto_names (nk nv : nat) : list string :=
  map (fun ik => ("key" ++ str_of_nat ik)%string) (seq nk (nv - nk)).

(* the values that it gives to the names *)
Definition named_values (vals : list value) (iv n : nat) : list value :=
  map (fun j => nth (Nat.min (iv + j) (List.length vals - 1)) vals VNone)
    (seq 0 n).

(* the structure that struct() yields once the fields l are set *)
Definition plain (l : list (string * value)) : struct :=
  mkstruct CStruct (("_excludedattr", VAttrSet) :: l).

(* fields that keys() shows *)
Definition visible (l : list (string * value)) : Prop :=
  Forall (fun kv => excluded (fst kv) = false) l.

(** ** The dependency sorter *)

(* the flag that isdefined gives to a field that comes after the fields
   before: a text with placeholders is defined when each of them names
   one of the fields before *)
Definition field_defined (before : list (string * value)) (v : value)
  : bool :=
  match v with
  | VStr t =>
      if isstrexpression t then isstrdefined t (plain before) else true
  | _ => true
  end.

(* the flags of isdefined for the fields rest that follow before *)
Fixpoint defined_from (before rest : list (string * value)) : list bool :=
  match rest with
  | [] => []
  | x :: rest' =>
      field_defined before (snd x) :: defined_from (before ++ [x]) rest'
  end.

(* all(list(s.isdefined())) for the fields l *)
Definition all_defined (l : list (string * value)) : bool :=
  forallb (fun b => b) (defined_from [] l).

(* a list without its element at position i *)
Definition remove_at {A : Type} (i : nat) (l : list A) : list A :=
  firstn i l ++ skipn (S i) l.

(* the flag of isexpression *)
Definition is_expr (v : value) : bool :=
  match v with VStr t => isstrexpression t | _ => false end.

(* the fields of the structure that isdefined returns *)
Definition flagged (b r : list (string * value)) : list (string * value) :=
  combine (map fst r) (map VBool (defined_from b r)).

(* the inner while loop of sortdefinitions on the fields themselves: the
   accumulator c, the pending fields d, the index itst, the number of
   tests left; it returns teststruct, ifound and found *)
Fixpoint pure_try (c d : list (string * value)) (itst count : nat)
  (last : list (string * value) * nat)
  : list (string * value) * nat * bool :=
  match count with
  | O => (fst last, snd last, false)
  | S count' =>
      match nth_error d itst with
      | Some x =>
          if all_defined (c ++ [x]) then (c ++ [x], itst, true)
          else pure_try c d (S itst) count' (c ++ [x], itst)
      | None => (fst last, snd last, false)
      end
  end.

(* what has been printed once the lenient branch has run *)
Definition warn (silentmode err : bool) (out : list string) (msg : string)
  : list string :=
  if negb err && negb silentmode then out ++ [("WARNING: " ++ msg)%string]
  else out.

(* fields that __delattr__ accepts to delete *)
Definition deletable (d : list (string * value)) : Prop :=
  Forall (fun kv => mem_string (fst kv) (class_dict CStruct) = false) d.

(* the fields that sortdefinitions puts in static and in dynamic *)
Definition static_of (l : list (string * value)) : list (string * value) :=
  filter (fun kv => Bool.eqb (is_expr (snd kv)) false) l.

Definition dynamic_of (l : list (string * value)) : list (string * value) :=
  filter (fun kv => Bool.eqb (is_expr (snd kv)) true) l.

(** ** Evaluation *)

(* an escaped placeholder, the placeholder, and what param.escape makes of
   the escaped one *)
Definition escaped (x : string) : string := ("\${" ++ x ++ "}")%string.
Definition braced (x : string) : string := ("${" ++ x ++ "}")%string.
Definition doubled (x : string) : string := ("${{" ++ x ++ "}}")%string.

(* tmp' has the slots of tmp, the slot key apart *)
Definition same_elsewhere (key : string) (tmp tmp' : struct) : Prop :=
  forall k, k <> key ->
    dict_get (__dict__ tmp') k = dict_get (__dict__ tmp) k.

(** ** Registries of the examples *)

(* param(a=1, c="${a}+${b}", b=2) *)
Definition reg_abc : struct :=
  param_init false true
    [("a", VInt 1); ("c", VStr "${a}+${b}"); ("b", VInt 2)].

(* param(a=[1,2], b="a.append(3)"), the list being the object 0 *)
Definition reg_shared : struct :=
  param_init false true [("a", VObj 0); ("b", VStr "a.append(3)")].

(* struct(a="${x}", b="${y}", c="${s}", s=1) *)
Definition reg_partial : struct :=
  struct_init
    [("a", VStr "${x}"); ("b", VStr "${y}"); ("c", VStr "${s}");
     ("s", VInt 1)].

Definition reg_unbalanced : struct :=
  param_init false true [("a", VStr "$}"); ("b", VInt 2)].

Definition reg_broken : struct :=
  param_init false true [("a", VStr "}"); ("b", VInt 2)].

Definition reg_texts : struct :=
  param_init false true [("d", VStr "$this is a string"); ("q", VStr "1+1")].

Definition reg_numbers : struct :=
  param_init false true [("a", VInt 1); ("b", VInt 2)].

Definition reg_escaped : struct :=
  param_init false true [("p", VStr "\${x}"); ("x", VInt 7)].

Definition reg_three : struct :=
  struct_init [("a", VInt 10); ("b", VInt 20); ("c", VInt 30)].

Definition ctx_five : pydict := SafeEvaluator (struct_init [("a", VInt 5)]).

(* NoDup and Forall on lists that are given *)
Ltac solve_nodup :=
  vm_compute;
  repeat (constructor; [cbn; intuition discriminate|]); constructor.

Ltac solve_forall := repeat (constructor; [reflexivity|]); constructor.

(** * Properties *)

#[local] Arguments String.eqb : simpl never.
#[local] Arguments setattr : simpl never.
#[local] Arguments getitem_upto : simpl never.
#[local] Arguments fromkeysvalues : simpl never.

(** ** Dictionaries *)

Lemma dict_get_none (d : pydict) (k : string) :
  dict_get d k = None <-> ~ In k (map fst d).
Proof.
  induction d as [|[k' v'] d IH]; simpl.
  - tauto.
  - destruct (String.eqb_spec k' k) as [->|Hne].
    + split; [discriminate | intros H; exfalso; apply H; now left].
    + rewrite IH. split.
      * intros H [Heq|Hin]; [now apply Hne | now apply H].
      * intros H Hin. apply H. now right.
Qed.

Lemma dict_get_in (d : pydict) (k : string) (v : value) :
  NoDup (map fst d) -> In (k, v) d -> dict_get d k = Some v.
Proof.
  induction d as [|[k' v'] d IH]; simpl; intros Hnd Hin.
  - contradiction.
  - inversion Hnd as [|? ? Hnotin Hnd']; subst.
    destruct Hin as [Heq|Hin].
    + inversion Heq; subst. now rewrite String.eqb_refl.
    + destruct (String.eqb_spec k' k) as [->|Hne].
      * exfalso. apply Hnotin. now apply (in_map fst) in Hin.
      * now apply IH.
Qed.

Lemma dict_get_some_in (d : pydict) (k : string) (v : value) :
  dict_get d k = Some v -> In (k, v) d.
Proof.
  induction d as [|[k' v'] d IH]; simpl; intros H.
  - discriminate.
  - destruct (String.eqb_spec k' k) as [->|Hne].
    + inversion H; subst. now left.
    + right. now apply IH.
Qed.

Lemma dict_mem_in (d : pydict) (k : string) :
  dict_mem d k = true <-> In k (map fst d).
Proof.
  unfold dict_mem. destruct (dict_get d k) eqn:E.
  - split; [intros _ | reflexivity].
    apply dict_get_some_in in E. now apply (in_map fst) in E.
  - split; [discriminate | intros H].
    apply dict_get_none in E. contradiction.
Qed.

Lemma dict_set_fresh (d : pydict) (k : string) (v : value) :
  dict_get d k = None -> dict_set d k v = (d ++ [(k, v)])%list.
Proof.
  induction d as [|[k' v'] d IH]; simpl; intros H.
  - reflexivity.
  - destruct (String.eqb k' k); [discriminate|]. now rewrite IH.
Qed.

Lemma dict_set_keys (d : pydict) (k : string) (v : value) :
  dict_get d k <> None -> map fst (dict_set d k v) = map fst d.
Proof.
  induction d as [|[k' v'] d IH]; simpl; intros H.
  - congruence.
  - destruct (String.eqb_spec k' k) as [->|Hne]; simpl.
    + reflexivity.
    + now rewrite IH.
Qed.

Lemma dict_get_set_same (d : pydict) (k : string) (v : value) :
  dict_get (dict_set d k v) k = Some v.
Proof.
  induction d as [|[k' v'] d IH]; simpl.
  - now rewrite String.eqb_refl.
  - destruct (String.eqb k' k) eqn:E; simpl.
    + now rewrite String.eqb_refl.
    + now rewrite E.
Qed.

Lemma dict_get_set_other (d : pydict) (k k0 : string) (v : value) :
  k0 <> k -> dict_get (dict_set d k v) k0 = dict_get d k0.
Proof.
  intros Hne. induction d as [|[k' v'] d IH]; simpl.
  - destruct (String.eqb_spec k k0); congruence.
  - destruct (String.eqb_spec k' k) as [->|Hne']; simpl.
    + destruct (String.eqb_spec k k0); congruence.
    + now rewrite IH.
Qed.

Lemma dict_set_nodup (d : pydict) (k : string) (v : value) :
  NoDup (map fst d) -> NoDup (map fst (dict_set d k v)).
Proof.
  intros Hnd. destruct (dict_get d k) eqn:E.
  - rewrite dict_set_keys; [assumption | congruence].
  - rewrite dict_set_fresh by assumption.
    rewrite map_app; simpl.
    apply NoDup_app; try assumption.
    + repeat constructor. intros [].
    + intros x Hx [Heq|[]]; subst. now apply dict_get_none in E.
Qed.

Lemma dict_get_del_other (d : pydict) (k k0 : string) :
  k0 <> k -> dict_get (dict_del d k) k0 = dict_get d k0.
Proof.
  intros Hne. induction d as [|[k' v'] d IH]; simpl.
  - reflexivity.
  - destruct (String.eqb_spec k' k) as [->|Hne']; simpl.
    + destruct (String.eqb_spec k k0); congruence.
    + now rewrite IH.
Qed.

Lemma dict_del_perm (d : pydict) (k : string) (v : value) :
  dict_get d k = Some v -> Permutation d ((k, v) :: dict_del d k).
Proof.
  induction d as [|[k' v'] d IH]; simpl; intros H.
  - discriminate.
  - destruct (String.eqb_spec k' k) as [->|Hne].
    + inversion H; subst. reflexivity.
    + rewrite perm_swap. constructor. now apply IH.
Qed.

Lemma dict_del_nodup (d : pydict) (k : string) :
  NoDup (map fst d) -> NoDup (map fst (dict_del d k)).
Proof.
  induction d as [|[k' v'] d IH]; simpl; intros Hnd.
  - constructor.
  - inversion Hnd as [|? ? Hnotin Hnd']; subst.
    destruct (String.eqb k' k); [assumption|]. simpl.
    constructor; [|now apply IH].
    intros Hin. apply Hnotin.
    clear -Hin. induction d as [|[k1 v1] d IH]; simpl in *; [assumption|].
    destruct (String.eqb k1 k); simpl in *; tauto.
Qed.

Lemma user_app (d e : pydict) :
  user (d ++ e)%list = (user d ++ user e)%list.
Proof. apply filter_app. Qed.

Lemma items_user (s : struct) : items s = user (__dict__ s).
Proof.
  unfold items, keys, values, user.
  generalize (__dict__ s) as d.
  induction d as [|[k v] d IH]; simpl; [reflexivity|].
  destruct (excluded k); simpl; now rewrite IH.
Qed.

Lemma keys_user (s : struct) : keys s = map fst (user (__dict__ s)).
Proof.
  unfold keys, user. generalize (__dict__ s) as d.
  induction d as [|[k v] d IH]; simpl; [reflexivity|].
  destruct (excluded k); simpl; now rewrite IH.
Qed.

Lemma values_user (s : struct) : values s = map snd (user (__dict__ s)).
Proof. reflexivity. Qed.

Lemma user_nodup (d : pydict) :
  NoDup (map fst d) -> NoDup (map fst (user d)).
Proof.
  induction d as [|[k v] d IH]; simpl; intros Hnd; [constructor|].
  inversion Hnd as [|? ? Hnotin Hnd']; subst.
  destruct (excluded k); simpl; [now apply IH|].
  constructor; [|now apply IH].
  intros Hin. apply Hnotin.
  clear -Hin. unfold user in Hin.
  apply in_map_iff in Hin as [[k' v'] [Heq Hin]]. simpl in Heq; subst.
  apply filter_In in Hin as [Hin _]. now apply (in_map fst) in Hin.
Qed.

Lemma user_in (d : pydict) (k : string) (v : value) :
  In (k, v) (user d) <-> In (k, v) d /\ excluded k = false.
Proof.
  unfold user. rewrite filter_In. simpl.
  destruct (excluded k); simpl; intuition congruence.
Qed.

(** ** Fields of a structure *)

Lemma hidden_only_get (d : pydict) (k : string) :
  hidden_only d -> excluded k = false -> dict_get d k = None.
Proof.
  intros Hh Hk. apply dict_get_none. intros Hin.
  apply Hh in Hin. congruence.
Qed.

Lemma hidden_only_user (d : pydict) : hidden_only d -> user d = [].
Proof.
  unfold hidden_only, user. induction d as [|[k v] d IH]; simpl; intros H.
  - reflexivity.
  - rewrite (H k) by now left. simpl. apply IH.
    intros k' Hin. apply H. now right.
Qed.

Lemma new_like_hidden (b : bool) : hidden_only (__dict__ (new_like b)).
Proof.
  intros k. destruct b; simpl; intuition (subst; reflexivity).
Qed.

Lemma new_like_wf (b : bool) : wf (new_like b).
Proof.
  unfold wf. destruct b; simpl; repeat constructor; simpl;
    intuition discriminate.
Qed.

Lemma user_all (d : pydict) :
  Forall (fun kv => excluded (fst kv) = false) d -> user d = d.
Proof.
  unfold user. induction 1 as [|[k v] d Hk _ IH]; simpl; [reflexivity|].
  simpl in Hk. rewrite Hk. simpl. now rewrite IH.
Qed.

Lemma nth_error_user (s : struct) (p : nat) (k : string) (v : value) :
  wf s ->
  nth_error (keys s) p = Some k ->
  nth_error (values s) p = Some v ->
  dict_get (__dict__ s) k = Some v.
Proof.
  intros Hwf Hk Hv. rewrite keys_user in Hk. rewrite values_user in Hv.
  rewrite nth_error_map in Hk, Hv.
  destruct (nth_error (user (__dict__ s)) p) as [[k' v']|] eqn:E;
    simpl in *; [|discriminate].
  inversion Hk; inversion Hv; subst.
  apply nth_error_In in E. apply user_in in E as [Hin _].
  now apply dict_get_in.
Qed.

Lemma length_keys_values (s : struct) :
  List.length (values s) = List.length (keys s).
Proof. rewrite keys_user, values_user. now rewrite !length_map. Qed.

Section RegistryFacts.

Variable world : Type.
Variable rt : runtime world.

Lemma setattr_fresh (w : world) (s : struct) (k : string) (v : value) :
  dict_get (__dict__ s) k = None ->
  setattr rt w s k v = Ok (mkstruct (cls s) (__dict__ s ++ [(k, v)])).
Proof.
  intros H. unfold setattr, hasattr, dict_mem. rewrite H. simpl.
  rewrite andb_false_r. now rewrite dict_set_fresh.
Qed.

Lemma setattr_value (w : world) (s : struct) (k : string) (v : value) :
  is_empty_list rt w v = false ->
  setattr rt w s k v = Ok (mkstruct (cls s) (dict_set (__dict__ s) k v)).
Proof. intros H. unfold setattr. now rewrite H. Qed.

(** *** Indexing by an integer *)

Lemma getattr_at (s : struct) (p : nat) :
  wf s -> p < len s ->
  exists k v,
    nth_error (keys s) p = Some k /\ nth_error (values s) p = Some v
    /\ getattr s k = Ok v.
Proof.
  intros Hwf Hp. unfold len in Hp.
  destruct (nth_error (keys s) p) as [k|] eqn:Ek;
    [|apply nth_error_None in Ek; lia].
  destruct (nth_error (values s) p) as [v|] eqn:Ev;
    [|apply nth_error_None in Ev; rewrite length_keys_values in Ev; lia].
  exists k, v. repeat split. unfold getattr.
  now rewrite (nth_error_user s p k v Hwf Ek Ev).
Qed.


End RegistryFacts.

(** ** Construction from names and values *)

Lemma auto_name_visible (ik : nat) :
  excluded ("key" ++ str_of_nat ik) = false.
Proof. reflexivity. Qed.

Lemma NoDup_app_disjoint {A : Type} (l1 l2 : list A) (a : A) :
  NoDup (l1 ++ l2) -> In a l1 -> ~ In a l2.
Proof.
  induction l1 as [|x l1 IH]; simpl; intros Hnd Hin Hin2; [contradiction|].
  inversion Hnd as [|? ? Hnotin Hnd']; subst.
  destruct Hin as [->|Hin].
  - apply Hnotin. apply in_or_app. now right.
  - now apply IH.
Qed.

Lemma map_fst_combine {A B : Type} (l1 : list A) (l2 : list B) :
  List.length l1 = List.length l2 -> map fst (combine l1 l2) = l1.
Proof.
  revert l2. induction l1 as [|a l1 IH]; intros [|b l2] H;
    simpl in *; try discriminate; [reflexivity|].
  f_equal. apply IH. now inversion H.
Qed.

Lemma map_snd_combine {A B : Type} (l1 : list A) (l2 : list B) :
  List.length l1 = List.length l2 -> map snd (combine l1 l2) = l2.
Proof.
  revert l2. induction l1 as [|a l1 IH]; intros [|b l2] H;
    simpl in *; try discriminate; [reflexivity|].
  f_equal. apply IH. now inversion H.
Qed.

Lemma combine_fst_snd {A B : Type} (l : list (A * B)) :
  combine (map fst l) (map snd l) = l.
Proof.
  induction l as [|[a b] l IH]; simpl; [reflexivity|]. now rewrite IH.
Qed.

Lemma named_values_same (vals : list value) :
  named_values vals 0 (List.length vals) = vals.
Proof.
  unfold named_values.
  apply (nth_ext _ _ VNone VNone).
  - now rewrite length_map, length_seq.
  - intros i Hi. rewrite length_map, length_seq in Hi.
    rewrite (nth_indep _ VNone (nth (Nat.min (0 + 0) (List.length vals - 1)) vals VNone))
      by (rewrite length_map, length_seq; exact Hi).
    rewrite (map_nth (fun j => nth (Nat.min (0 + j) (List.length vals - 1)) vals VNone)
               (seq 0 (List.length vals)) 0 i).
    rewrite seq_nth by exact Hi. simpl. f_equal. lia.
Qed.

Lemma plain_get_hidden (l : list (string * value)) (k : string) :
  visible l -> excluded k = true -> dict_get l k = None.
Proof.
  intros Hv Hk. apply dict_get_none. intros Hin.
  apply in_map_iff in Hin as [[k' v'] [Heq Hin]]. simpl in Heq; subst.
  unfold visible in Hv. rewrite Forall_forall in Hv.
  apply Hv in Hin. simpl in Hin. congruence.
Qed.

Lemma items_plain (l : list (string * value)) :
  visible l -> items (plain l) = l.
Proof. intros Hv. rewrite items_user. simpl. now apply user_all. Qed.

Lemma keys_plain (l : list (string * value)) :
  visible l -> keys (plain l) = map fst l.
Proof. intros Hv. rewrite keys_user. simpl. now rewrite user_all. Qed.

Lemma values_plain (l : list (string * value)) :
  visible l -> values (plain l) = map snd l.
Proof. intros Hv. rewrite values_user. simpl. now rewrite user_all. Qed.

Lemma len_plain (l : list (string * value)) :
  visible l -> len (plain l) = List.length l.
Proof. intros Hv. unfold len. rewrite keys_plain, length_map; auto. Qed.

Lemma plain_wf (l : list (string * value)) :
  visible l -> NoDup (map fst l) -> wf (plain l).
Proof.
  intros Hv Hnd. unfold wf. simpl. constructor; [|assumption].
  apply dict_get_none. now apply plain_get_hidden.
Qed.

Lemma plain_get_fresh (l : list (string * value)) (k : string) :
  excluded k = false -> ~ In k (map fst l) ->
  dict_get (__dict__ (plain l)) k = None.
Proof.
  intros Hk Hin. simpl.
  destruct (String.eqb_spec "_excludedattr" k) as [<-|_]; [discriminate|].
  now apply dict_get_none.
Qed.

Section Construction.

Variable world : Type.
Variable rt : runtime world.

Lemma fkv_named_fresh (w : world) (vals : list value) :
  forall (ks : list string) (s : struct) (iv : nat),
    iv < List.length vals ->
    NoDup ks ->
    (forall k, In k ks -> dict_get (__dict__ s) k = None) ->
    fkv_named rt w s ks vals iv
    = Ok (mkstruct (cls s)
            (__dict__ s
             ++ combine ks (named_values vals iv (List.length ks)))).
Proof.
  induction ks as [|k ks IH]; intros s iv Hiv Hnd Hfresh; simpl.
  - rewrite app_nil_r. now destruct s.
  - inversion Hnd as [|? ? Hnotin Hnd']; subst.
    destruct (nth_error vals iv) as [v|] eqn:Ev;
      [|apply nth_error_None in Ev; lia].
    rewrite setattr_fresh by (apply Hfresh; now left). simpl.
    rewrite IH; simpl; try assumption.
    + f_equal. f_equal. rewrite <- app_assoc. simpl. f_equal.
      rewrite Nat.add_0_r. rewrite (Nat.min_l iv) by lia.
      rewrite (nth_error_nth _ _ _ Ev). f_equal. f_equal.
      unfold named_values. rewrite <- seq_shift, map_map.
      apply map_ext. intros j. f_equal. lia.
    + lia.
    + intros k' Hin.
      apply dict_get_none. rewrite map_app. simpl. intros Hin'.
      apply in_app_or in Hin' as [Hin'|[Heq|[]]].
      * revert Hin'. apply dict_get_none. apply Hfresh. now right.
      * subst. contradiction.
Qed.

Lemma fkv_auto_fresh (w : world) :
  forall (rest : list value) (s : struct) (ik : nat),
    NoDup (map (fun i => ("key" ++ str_of_nat i)%string)
             (seq ik (List.length rest))) ->
    (forall i, ik <= i < ik + List.length rest ->
               dict_get (__dict__ s) ("key" ++ str_of_nat i) = None) ->
    fkv_auto rt w s ik rest
    = Ok (mkstruct (cls s)
            (__dict__ s
             ++ combine (map (fun i => ("key" ++ str_of_nat i)%string)
                           (seq ik (List.length rest))) rest)).
Proof.
  induction rest as [|v rest IH]; intros s ik Hnd Hfresh; simpl.
  - rewrite app_nil_r. now destruct s.
  - simpl in Hnd. inversion Hnd as [|? ? Hnotin Hnd']; subst.
    rewrite setattr_fresh by (apply Hfresh; simpl; lia). simpl.
    rewrite IH; simpl; try assumption.
    + now rewrite <- app_assoc.
    + intros i Hi. apply dict_get_none. rewrite map_app. simpl.
      intros Hin. apply in_app_or in Hin as [Hin|[Heq|[]]].
      * revert Hin. apply dict_get_none. apply Hfresh. simpl. lia.
      * apply Hnotin. rewrite Heq. apply in_map_iff.
        exists i. split; [reflexivity|]. apply in_seq. lia.
Qed.

Lemma dict_get_app_l (d e : pydict) (k : string) (v : value) :
  dict_get d k = Some v -> dict_get (d ++ e) k = Some v.
Proof.
  induction d as [|[k' v'] d IH]; simpl; intros H; [discriminate|].
  destruct (String.eqb k' k); auto.
Qed.

Lemma dict_get_app_r (d e : pydict) (k : string) :
  dict_get d k = None -> dict_get (d ++ e) k = dict_get e k.
Proof.
  induction d as [|[k' v'] d IH]; simpl; intros H; [reflexivity|].
  destruct (String.eqb k' k); [discriminate | auto].
Qed.

Lemma dict_get_combine (ks : list string) (vs : list value) (i : nat)
  (k : string) (v : value) :
  NoDup ks ->
  nth_error ks i = Some k -> nth_error vs i = Some v ->
  dict_get (combine ks vs) k = Some v.
Proof.
  intros Hnd Hk Hv. apply dict_get_in.
  - clear -Hnd. revert vs. induction ks as [|k ks IH]; intros vs; simpl.
    + constructor.
    + destruct vs as [|v vs]; simpl; [constructor|].
      inversion Hnd as [|? ? Hnotin Hnd']; subst.
      constructor; [|now apply IH].
      intros Hin. apply Hnotin.
      apply in_map_iff in Hin as [[k' v'] [Heq Hin]]. simpl in Heq; subst.
      now apply in_combine_l in Hin.
  - clear Hnd. revert ks vs Hk Hv.
    induction i as [|i IH]; intros [|k0 ks] [|v0 vs] Hk Hv;
      simpl in *; try discriminate.
    + inversion Hk; inversion Hv; subst. now left.
    + right. now apply IH.
Qed.

Lemma fromkeysvalues_run (w : world) (ks : list string)
  (vals : list value) (makeparam : bool) :
  let n := List.length ks in
  let m := List.length vals in
  0 < n -> 0 < m ->
  NoDup (ks ++ auto_names n m) ->
  Forall (fun k => excluded k = false) ks ->
  fromkeysvalues rt w ks vals makeparam
  = Ok (mkstruct (cls (new_like makeparam))
          (__dict__ (new_like makeparam)
           ++ combine ks (named_values vals 0 n)
           ++ combine (auto_names n m) (skipn n vals))).
Proof.
  intros n m Hn Hm Hnd Hvis.
  pose proof (NoDup_app_remove_r _ _ Hnd) as Hndk.
  pose proof (NoDup_app_remove_l _ _ Hnd) as Hnda.
  assert (Hnew : forall k, excluded k = false ->
                   dict_get (__dict__ (new_like makeparam)) k = None).
  { intros k Hk. apply hidden_only_get; [apply new_like_hidden | exact Hk]. }
  assert (Hlen : List.length (skipn n vals) = m - n)
    by (rewrite length_skipn; reflexivity).
  unfold fromkeysvalues. fold n m.
  replace (0 <? n)%nat with true by (symmetry; apply Nat.ltb_lt; lia).
  replace (0 <? m)%nat with true by (symmetry; apply Nat.ltb_lt; lia).
  simpl. rewrite fkv_named_fresh; try assumption.
  - simpl. rewrite fkv_auto_fresh; simpl.
    + rewrite Hlen. unfold auto_names. now rewrite <- app_assoc.
    + rewrite Hlen. exact Hnda.
    + rewrite Hlen. intros i Hi.
      rewrite dict_get_app_r by (apply Hnew; apply auto_name_visible).
      apply dict_get_none. intros Hin.
      apply in_map_iff in Hin as [[k' v'] [Heq Hin]].
      simpl in Heq. apply in_combine_l in Hin.
      apply (NoDup_app_disjoint _ _ k' Hnd Hin).
      rewrite Heq. apply in_map_iff. exists i. split; [reflexivity|].
      apply in_seq. lia.
  - intros k Hin. apply Hnew.
    rewrite Forall_forall in Hvis. now apply Hvis.
Qed.

(* with as many values as names, the fields are the pairs in order *)
Lemma fromkeysvalues_plain (w : world) (l : list (string * value)) :
  visible l -> NoDup (map fst l) ->
  fromkeysvalues rt w (map fst l) (map snd l) false = Ok (plain l).
Proof.
  intros Hv Hnd. destruct l as [|x l'] eqn:El; [reflexivity|].
  rewrite <- El in *.
  assert (Hlen : List.length (map fst l) = List.length (map snd l))
    by now rewrite !length_map.
  rewrite fromkeysvalues_run.
  - rewrite Hlen. unfold auto_names. rewrite Nat.sub_diag. simpl seq.
    simpl map at 4. simpl combine at 2.
    rewrite named_values_same, combine_fst_snd, app_nil_r. reflexivity.
  - rewrite El. simpl. lia.
  - rewrite El. simpl. lia.
  - rewrite <- Hlen. unfold auto_names. rewrite Nat.sub_diag. simpl seq.
    simpl map at 2. now rewrite app_nil_r.
  - apply Forall_forall. intros k Hin.
    apply in_map_iff in Hin as [[k' v'] [Heq Hin]]. simpl in Heq; subst.
    unfold visible in Hv. rewrite Forall_forall in Hv.
    now apply (Hv (k, v')).
Qed.


End Construction.

(** ** The dependency sorter on plain structures *)

Lemma defined_from_app (b r : list (string * value)) (x : string * value) :
  defined_from b (r ++ [x])
  = defined_from b r ++ [field_defined (b ++ r) (snd x)].
Proof.
  revert b. induction r as [|y r IH]; intros b; simpl.
  - now rewrite app_nil_r.
  - rewrite IH. now rewrite <- app_assoc.
Qed.

Lemma all_defined_app (c : list (string * value)) (x : string * value) :
  all_defined (c ++ [x]) = all_defined c && field_defined c (snd x).
Proof.
  unfold all_defined. rewrite defined_from_app, forallb_app. simpl.
  now rewrite andb_true_r.
Qed.

Lemma visible_app (a b : list (string * value)) :
  visible (a ++ b) <-> visible a /\ visible b.
Proof. unfold visible. apply Forall_app. Qed.

Lemma firstn_length_app {A : Type} (b r : list A) :
  firstn (List.length b) (b ++ r) = b.
Proof.
  rewrite <- (Nat.add_0_r (List.length b)), firstn_app_2. simpl.
  now rewrite app_nil_r.
Qed.

Lemma remove_at_app {A : Type} (b r : list A) (x : A) :
  remove_at (List.length b) (b ++ x :: r) = b ++ r.
Proof.
  unfold remove_at. rewrite firstn_length_app. f_equal.
  induction b as [|y b IH]; simpl; [reflexivity | exact IH].
Qed.

Lemma dict_del_app (b r : pydict) (k : string) (v : value) :
  ~ In k (map fst b) -> dict_del (b ++ (k, v) :: r) k = b ++ r.
Proof.
  induction b as [|[k' v'] b IH]; simpl; intros H.
  - now rewrite String.eqb_refl.
  - destruct (String.eqb_spec k' k) as [->|Hne]; [tauto|].
    rewrite IH; tauto.
Qed.

Lemma nodup_mid (b r : list (string * value)) (x : string * value) :
  NoDup (map fst (b ++ x :: r)) ->
  ~ In (fst x) (map fst b) /\ ~ In (fst x) (map fst r)
  /\ NoDup (map fst (b ++ r)).
Proof.
  rewrite !map_app. simpl. intros H.
  apply NoDup_remove in H as [Hnd Hnotin].
  rewrite in_app_iff in Hnotin. tauto.
Qed.

Section Sorting.

Variable world : Type.
Variable rt : runtime world.
Variable w : world.

Lemma getitem_list_plain (d : list (string * value)) (i : nat)
  (x : string * value) :
  visible d -> nth_error d i = Some x ->
  getitem_list rt w (plain d) [i] = Ok (plain [x]).
Proof.
  intros Hv Hx. unfold getitem_list. rewrite keys_plain, values_plain by auto.
  simpl. rewrite !nth_error_map, Hx. simpl.
  change (new_like (isparam (plain d))) with (plain []).
  rewrite setattr_fresh.
  - destruct x; reflexivity.
  - apply plain_get_fresh; [|intros []].
    unfold visible in Hv. rewrite Forall_forall in Hv.
    apply (Hv x). eapply nth_error_In; eassumption.
Qed.

Lemma add_plain (c : list (string * value)) (x : string * value) :
  excluded (fst x) = false -> ~ In (fst x) (map fst c) ->
  __add__ (plain c) (plain [x]) = plain (c ++ [x]).
Proof.
  intros Hx Hin. unfold __add__, plain, dict_update.
  destruct x as [k v]. simpl in *.
  destruct (String.eqb_spec "_excludedattr" k) as [<-|_]; [discriminate|].
  rewrite dict_set_fresh; [reflexivity|]. now apply dict_get_none.
Qed.

Lemma list_loop_values (s : struct) :
  wf s ->
  forall b a, a + b <= len s ->
    list_loop s (seq a b)
    = Ok (map (fun i => nth i (values s) VNone) (seq a b)).
Proof.
  intros Hwf b. induction b as [|b IH]; intros a Hab; simpl.
  - reflexivity.
  - destruct (getattr_at s a Hwf) as (k & v & Hk & Hv & Hg); [lia|].
    unfold getitem_int, list_index.
    replace (Z.of_nat a <? Z.of_nat (len s))%Z with true
      by (symmetry; apply Z.ltb_lt; lia).
    replace (0 <=? Z.of_nat a)%Z with true
      by (symmetry; apply Z.leb_le; lia).
    rewrite Nat2Z.id, Hk, Hg. simpl. rewrite IH by lia. simpl.
    now rewrite (nth_error_nth _ _ VNone Hv).
Qed.

Lemma map_nth_seq {A : Type} (l : list A) (d : A) :
  map (fun i => nth i l d) (seq 0 (List.length l)) = l.
Proof.
  apply (nth_ext _ _ d d).
  - now rewrite length_map, length_seq.
  - intros i Hi. rewrite length_map, length_seq in Hi.
    rewrite (nth_indep _ d (nth 0 l d))
      by (rewrite length_map, length_seq; exact Hi).
    rewrite (map_nth (fun i => nth i l d) (seq 0 (List.length l)) 0 i).
    now rewrite seq_nth.
Qed.

Lemma struct_list_values (s : struct) :
  wf s -> struct_list s = Ok (values s).
Proof.
  intros Hwf. unfold struct_list. rewrite list_loop_values by (auto; lia).
  unfold len. rewrite <- length_keys_values. now rewrite map_nth_seq.
Qed.

Lemma isexpression_loop_plain :
  forall (kvs p : list (string * value)),
    visible kvs -> NoDup (map fst (p ++ kvs)) ->
    isexpression_loop rt w (plain p) kvs
    = Ok (plain (p ++ map (fun kv => (fst kv, VBool (is_expr (snd kv)))) kvs)).
Proof.
  induction kvs as [|[k v] kvs IH]; intros p Hv Hnd;
    cbn [isexpression_loop map fst snd].
  - now rewrite app_nil_r.
  - inversion Hv as [|? ? Hk Hv']; subst. cbn [fst] in Hk.
    destruct (nodup_mid _ _ _ Hnd) as (Hb & Hr & Hnd'). cbn [fst] in Hb, Hr.
    rewrite setattr_fresh by (apply plain_get_fresh; assumption).
    cbn [bind cls __dict__ plain].
    match goal with
    | |- _ = ?rhs =>
        change (isexpression_loop rt w
                  (plain (p ++ [(k, VBool (is_expr v))])) kvs = rhs)
    end.
    rewrite IH.
    + now rewrite <- app_assoc.
    + assumption.
    + rewrite <- app_assoc, map_app. rewrite map_app in Hnd. exact Hnd.
Qed.

Lemma isexpression_plain (l : list (string * value)) :
  visible l -> NoDup (map fst l) ->
  isexpression rt w (plain l)
  = Ok (plain (map (fun kv => (fst kv, VBool (is_expr (snd kv)))) l)).
Proof.
  intros Hv Hnd. unfold isexpression. rewrite items_plain by assumption.
  change (new_like (isparam (plain l))) with (plain []).
  now rewrite isexpression_loop_plain.
Qed.

Lemma getitem_upto_plain (b r : list (string * value)) :
  visible (b ++ r) -> NoDup (map fst (b ++ r)) ->
  getitem_upto rt w (plain (b ++ r)) (List.length b) = Ok (plain b).
Proof.
  intros Hv Hnd. unfold getitem_upto.
  rewrite keys_plain, values_plain by assumption.
  rewrite !firstn_map, firstn_length_app.
  apply fromkeysvalues_plain.
  - now apply visible_app in Hv.
  - rewrite map_app in Hnd. now apply NoDup_app_remove_r in Hnd.
Qed.

Lemma isdefined_loop_plain :
  forall (r b p : list (string * value)),
    visible (b ++ r) -> NoDup (map fst (b ++ r)) ->
    List.length p = List.length b -> map fst p = map fst b ->
    isdefined_loop rt w (plain (b ++ r)) (plain p)
      (map fst (b ++ r)) (map snd (b ++ r))
      (map (fun kv => VBool (is_expr (snd kv))) (b ++ r))
      (seq (List.length b) (List.length r))
    = Ok (plain (p ++ flagged b r)).
Proof.
  induction r as [|[k v] r IH]; intros b p Hv Hnd Hlen Hkeys;
    cbn [List.length seq isdefined_loop].
  - unfold flagged. simpl. now rewrite app_nil_r.
  - rewrite !nth_error_map.
    rewrite nth_error_app2, Nat.sub_diag by lia.
    cbn [nth_error option_map fst snd].
    assert (Hk : excluded k = false).
    { apply visible_app in Hv as [_ Hv]. now inversion Hv. }
    destruct (nodup_mid _ _ _ Hnd) as (Hb & Hr & Hnd'). cbn [fst] in Hb, Hr.
    assert (Hfresh : dict_get (__dict__ (plain p)) k = None).
    { apply plain_get_fresh; [assumption | now rewrite Hkeys]. }
    assert (Hstep :
      (if truthy (VBool (is_expr v))
       then match v with
            | VStr t =>
                ref <- getitem_upto rt w (plain (b ++ (k, v) :: r))
                         (List.length b) ;;
                setattr rt w (plain p) k (VBool (isstrdefined t ref))
            | _ => Raise TypeError "s must a string"
            end
       else setattr rt w (plain p) k (VBool true))
      = Ok (plain (p ++ [(k, VBool (field_defined b v))]))).
    { destruct v; cbn [truthy is_expr field_defined];
        try (rewrite setattr_fresh by assumption; reflexivity).
      destruct (isstrexpression s) eqn:Es.
      - rewrite getitem_upto_plain by assumption. cbn [bind].
        rewrite setattr_fresh by assumption. reflexivity.
      - rewrite setattr_fresh by assumption. reflexivity. }
    rewrite Hstep. cbn [bind].
    replace (b ++ (k, v) :: r) with ((b ++ [(k, v)]) ++ r)
      by now rewrite <- app_assoc.
    replace (S (List.length b)) with (List.length (b ++ [(k, v)]))
      by (rewrite length_app; simpl; lia).
    rewrite IH.
    + unfold flagged. cbn [map defined_from combine fst snd].
      now rewrite <- app_assoc.
    + now rewrite <- app_assoc.
    + now rewrite <- app_assoc.
    + rewrite !length_app. simpl. lia.
    + rewrite !map_app. simpl. now rewrite Hkeys.
Qed.

Lemma flagged_keys (b r : list (string * value)) :
  map fst (flagged b r) = map fst r.
Proof.
  unfold flagged. apply map_fst_combine.
  rewrite !length_map. revert b.
  induction r as [|x r IH]; intros b; simpl; [reflexivity|].
  now rewrite <- IH.
Qed.

Lemma flagged_values (b r : list (string * value)) :
  map snd (flagged b r) = map VBool (defined_from b r).
Proof.
  unfold flagged. apply map_snd_combine.
  rewrite !length_map. revert b.
  induction r as [|x r IH]; intros b; simpl; [reflexivity|].
  now rewrite <- IH.
Qed.

Lemma visible_keys (l l' : list (string * value)) :
  map fst l = map fst l' -> visible l' -> visible l.
Proof.
  unfold visible. rewrite !Forall_forall. intros Hk H x Hin.
  apply (in_map fst) in Hin. rewrite Hk in Hin.
  apply in_map_iff in Hin as [y [Heq Hy]]. rewrite <- Heq. now apply H.
Qed.

Lemma isdefined_plain (l : list (string * value)) :
  visible l -> NoDup (map fst l) ->
  isdefined rt w (plain l) = Ok (plain (flagged [] l)).
Proof.
  intros Hv Hnd. unfold isdefined. rewrite isexpression_plain by assumption.
  simpl. change (new_like (isparam (plain l))) with (plain []).
  rewrite keys_plain, len_plain by assumption.
  rewrite (values_plain l) by assumption.
  rewrite values_plain.
  - rewrite map_map. simpl.
    apply (isdefined_loop_plain l [] []); auto.
  - eapply visible_keys; [|exact Hv]. rewrite map_map. reflexivity.
Qed.

Lemma struct_list_flagged (l : list (string * value)) :
  visible l -> NoDup (map fst l) ->
  struct_list (plain (flagged [] l)) = Ok (map VBool (defined_from [] l)).
Proof.
  intros Hv Hnd.
  assert (Hvf : visible (flagged [] l))
    by (eapply visible_keys; [apply flagged_keys | exact Hv]).
  rewrite struct_list_values.
  - now rewrite values_plain, flagged_values.
  - apply plain_wf; [assumption|]. now rewrite flagged_keys.
Qed.

Lemma all_flags (fl : list bool) :
  all (map VBool fl) = forallb (fun b => b) fl.
Proof.
  unfold all. induction fl as [|b fl IH]; simpl; [reflexivity|].
  now rewrite IH.
Qed.

(** *** The inner loop *)

Lemma nodup_app_fresh (c d : list (string * value)) (x : string * value) :
  NoDup (map fst (c ++ d)) -> In x d -> ~ In (fst x) (map fst c).
Proof.
  rewrite map_app. intros Hnd Hin Hc.
  apply (NoDup_app_disjoint _ _ (fst x) Hnd Hc). now apply in_map.
Qed.

Lemma try_pending_plain (c d : list (string * value)) :
  visible (c ++ d) -> NoDup (map fst (c ++ d)) ->
  forall count itst tl il,
    itst + count <= List.length d ->
    try_pending rt w (plain c) (plain d) itst count (plain tl, il)
    = Ok (let '(t, i, f) := pure_try c d itst count (tl, il) in
          (plain t, i, f)).
Proof.
  intros Hv Hnd. induction count as [|count IH]; intros itst tl il Hlen;
    cbn [try_pending pure_try fst snd].
  - reflexivity.
  - destruct (nth_error d itst) as [x|] eqn:Ex;
      [|apply nth_error_None in Ex; lia].
    pose proof (nth_error_In _ _ Ex) as Hin.
    apply visible_app in Hv as Hvcd. destruct Hvcd as [Hvc Hvd].
    assert (Hx : excluded (fst x) = false).
    { unfold visible in Hvd. rewrite Forall_forall in Hvd. now apply Hvd. }
    assert (Hfresh : ~ In (fst x) (map fst c))
      by (eapply nodup_app_fresh; eassumption).
    assert (Hvt : visible (c ++ [x])).
    { apply visible_app. split; [assumption|]. now repeat constructor. }
    assert (Hndt : NoDup (map fst (c ++ [x]))).
    { rewrite map_app. simpl. rewrite map_app in Hnd.
      apply NoDup_app.
      - now apply NoDup_app_remove_r in Hnd.
      - repeat constructor. intros [].
      - intros a Ha [<-|[]]. contradiction. }
    rewrite (getitem_list_plain d itst x) by assumption. cbn [bind].
    rewrite add_plain by assumption.
    rewrite isdefined_plain by assumption. cbn [bind].
    rewrite struct_list_flagged by assumption. cbn [bind].
    rewrite all_flags. fold (all_defined (c ++ [x])).
    destruct (all_defined (c ++ [x])); [reflexivity|].
    apply IH. lia.
Qed.

Lemma pure_try_shape (c d : list (string * value)) :
  forall count itst last t i f,
    itst + S count <= List.length d ->
    pure_try c d itst (S count) last = (t, i, f) ->
    itst <= i < itst + S count
    /\ exists x, nth_error d i = Some x /\ t = c ++ [x]
                 /\ f = all_defined (c ++ [x]).
Proof.
  induction count as [|count IH]; intros itst last t i f Hlen H;
    cbn [pure_try] in H;
    (destruct (nth_error d itst) as [x|] eqn:Ex;
      [|apply nth_error_None in Ex; lia]);
    destruct (all_defined (c ++ [x])) eqn:Ed.
  - inversion H; subst. split; [lia|]. exists x. auto.
  - cbn [fst snd] in H. inversion H; subst. split; [lia|]. exists x. auto.
  - inversion H; subst. split; [lia|]. exists x. auto.
  - apply IH in H; [|lia]. destruct H as [Hi Hx]. split; [lia | exact Hx].
Qed.

Lemma pure_try_S (c d : list (string * value)) (itst count : nat)
  (last : list (string * value) * nat) :
  pure_try c d itst (S count) last
  = match nth_error d itst with
    | Some x =>
        if all_defined (c ++ [x]) then (c ++ [x], itst, true)
        else pure_try c d (S itst) count (c ++ [x], itst)
    | None => (fst last, snd last, false)
    end.
Proof. reflexivity. Qed.

Lemma pure_try_stuck (c d : list (string * value)) :
  (forall x, In x d -> all_defined (c ++ [x]) = false) ->
  forall count itst last x,
    nth_error d (itst + count) = Some x ->
    pure_try c d itst (S count) last = (c ++ [x], itst + count, false).
Proof.
  intros Hstuck. induction count as [|count IH]; intros itst last x Hx;
    rewrite pure_try_S.
  - rewrite Nat.add_0_r in *. rewrite Hx.
    rewrite Hstuck by (eapply nth_error_In; eassumption). reflexivity.
  - destruct (nth_error d itst) as [y|] eqn:Ey.
    + rewrite Hstuck by (eapply nth_error_In; eassumption).
      rewrite (IH (S itst) _ x).
      * f_equal. f_equal. lia.
      * rewrite <- Hx. f_equal. lia.
    + apply nth_error_None in Ey.
      assert (nth_error d (itst + S count) = None)
        by (apply nth_error_None; lia).
      congruence.
Qed.

(** *** Deleting the accepted field: dynamic[ifound] = [] *)

Lemma setitem_empty_plain (b r : list (string * value)) (k : string)
  (v : value) :
  visible (b ++ (k, v) :: r) -> NoDup (map fst (b ++ (k, v) :: r)) ->
  setitem_int rt w (plain (b ++ (k, v) :: r)) (Z.of_nat (List.length b))
    (VList [])
  = if mem_string k (class_dict CStruct)
    then Raise AttributeError ("Cannot delete class attribute " ++ k)
    else Ok (plain (b ++ r)).
Proof.
  intros Hv Hnd. unfold setitem_int, list_index.
  rewrite len_plain, keys_plain by assumption.
  replace (Z.of_nat (List.length b)
           <? Z.of_nat (List.length (b ++ (k, v) :: r)))%Z with true
    by (symmetry; apply Z.ltb_lt; rewrite length_app; simpl; lia).
  replace (0 <=? Z.of_nat (List.length b))%Z with true
    by (symmetry; apply Z.leb_le; lia).
  rewrite Nat2Z.id, nth_error_map, nth_error_app2, Nat.sub_diag by lia.
  cbn [nth_error option_map fst].
  assert (Hk : excluded k = false).
  { apply visible_app in Hv as [_ Hv]. now inversion Hv. }
  destruct (nodup_mid _ _ _ Hnd) as (Hb & Hr & Hnd'). cbn [fst] in Hb, Hr.
  unfold setattr, hasattr, __delattr__.
  assert (Hmem : dict_mem (__dict__ (plain (b ++ (k, v) :: r))) k = true).
  { apply dict_mem_in. simpl. right. rewrite map_app. apply in_or_app.
    right. now left. }
  rewrite Hmem, Hk. cbn [is_empty_list andb orb cls plain].
  destruct (mem_string k (class_dict CStruct)); [reflexivity|].
  unfold plain. cbn [__dict__ dict_del].
  destruct (String.eqb_spec "_excludedattr" k) as [<-|_]; [discriminate|].
  now rewrite dict_del_app.
Qed.

(** *** One round of the outer loop *)

Lemma sort_round_plain (raiseerror silentmode : bool) (self : struct)
  (c d : list (string * value)) (any err : bool) (out : list string) :
  visible (c ++ d) -> NoDup (map fst (c ++ d)) -> d <> [] ->
  exists b k v r,
    d = b ++ (k, v) :: r
    /\ ((forall x, In x d -> all_defined (c ++ [x]) = false) -> r = [])
    /\ sort_round rt w raiseerror silentmode self (List.length d)
         (mksortstate (plain c) (plain d) any err out)
       = let msg := unable_msg (List.length d) (len self) (cls self) in
         let del (a e : bool) (o : list string) :=
           if mem_string k (class_dict CStruct)
           then Raise AttributeError
                  ("Cannot delete class attribute " ++ k)%string
           else Ok (mksortstate (plain (c ++ [(k, v)])) (plain (b ++ r))
                      a e o) in
         if all_defined (c ++ [(k, v)]) then del true err out
         else if raiseerror then Raise KeyError msg
         else del any true (warn silentmode err out msg).
Proof.
  intros Hv Hnd Hne.
  destruct (List.length d) as [|n] eqn:Hlen;
    [destruct d; [congruence | discriminate]|].
  destruct (pure_try c d 0 (S n) (c, 0)) as [[t i] f] eqn:Etry.
  destruct (pure_try_shape c d n 0 (c, 0) t i f) as (Hi & x & Hx & Ht & Hf);
    [lia | exact Etry |].
  destruct (nth_error_split d i Hx) as (b & r & Hd & Hb).
  destruct x as [k v]. exists b, k, v, r.
  split; [exact Hd|]. split.
  - intros Hstuck.
    assert (Hl : exists xl, nth_error d (0 + n) = Some xl).
    { destruct (nth_error d (0 + n)) eqn:E; [eauto|].
      apply nth_error_None in E. simpl in E. lia. }
    destruct Hl as [xl Hxl].
    rewrite (pure_try_stuck c d Hstuck n 0 (c, 0) xl Hxl) in Etry.
    inversion Etry; subst i.
    apply (f_equal (@List.length _)) in Hd.
    rewrite length_app in Hd. simpl in Hd.
    destruct r; [reflexivity | simpl in Hd; lia].
  - unfold sort_round. cbn [current dynamic printed errorfound anychange].
    rewrite (try_pending_plain c d Hv Hnd (S n) 0 c 0) by lia.
    rewrite Etry. cbn [bind]. subst t f.
    rewrite <- Hb.
    assert (Hdel : setitem_int rt w (plain d) (Z.of_nat (List.length b))
                     (VList [])
                   = if mem_string k (class_dict CStruct)
                     then Raise AttributeError
                            ("Cannot delete class attribute " ++ k)%string
                     else Ok (plain (b ++ r))).
    { rewrite Hd in *. apply setitem_empty_plain.
      - now apply visible_app in Hv.
      - rewrite map_app in Hnd. now apply NoDup_app_remove_l in Hnd. }
    rewrite Hdel. unfold warn.
    destruct (all_defined (c ++ [(k, v)])), raiseerror,
      (mem_string k (class_dict CStruct)); reflexivity.
Qed.

(** ** The outer loop of the sorter *)

Lemma field_defined_stuck (c : list (string * value)) (v : value) (t : string) :
  v = VStr t -> isstrexpression t = true ->
  isstrdefined t (plain c) = false ->
  field_defined c v = false.
Proof. intros -> He Hd. unfold field_defined. now rewrite He. Qed.

Lemma accept_perm (c b r : list (string * value)) (x : string * value) :
  Permutation (c ++ b ++ x :: r) ((c ++ [x]) ++ b ++ r).
Proof.
  rewrite <- app_assoc. apply Permutation_app_head. simpl.
  symmetry. apply Permutation_middle.
Qed.

Lemma visible_perm (l l' : list (string * value)) :
  Permutation l l' -> visible l -> visible l'.
Proof. unfold visible. apply Permutation_Forall. Qed.

Lemma nodup_keys_perm (l l' : list (string * value)) :
  Permutation l l' -> NoDup (map fst l) -> NoDup (map fst l').
Proof.
  intros Hp. apply Permutation_NoDup. now apply Permutation_map.
Qed.

Lemma deletable_app (a b : list (string * value)) :
  deletable (a ++ b) <-> deletable a /\ deletable b.
Proof. unfold deletable. apply Forall_app. Qed.

(* once the accumulator holds a field that is not defined, no pending
   field is found any more: each round takes the last one *)
Lemma sort_loop_blocked (silentmode : bool) (self : struct) :
  forall (d c : list (string * value)) (any : bool) (out : list string),
    visible (c ++ d) -> NoDup (map fst (c ++ d)) -> deletable d ->
    all_defined c = false ->
    sort_loop rt w false silentmode self (List.length d)
      (mksortstate (plain c) (plain d) any true out)
    = Ok (mksortstate (plain (c ++ rev d)) (plain []) any true out).
Proof.
  induction d as [|x d IH] using rev_ind; intros c any out Hv Hnd Hdel Hc.
  - simpl. now rewrite app_nil_r.
  - rewrite length_app, Nat.add_comm. cbn [List.length plus sort_loop].
    assert (Hstuck : forall y, In y (d ++ [x]) -> all_defined (c ++ [y]) = false)
      by (intros y _; rewrite all_defined_app, Hc; reflexivity).
    destruct (sort_round_plain false silentmode self c (d ++ [x])
                any true out Hv Hnd)
      as (b & k & v & r & Hd & Hr & Hround);
      [now destruct d|].
    specialize (Hr Hstuck). subst r.
    apply app_inj_tail in Hd as [Hdb Hx]. subst b x.
    rewrite length_app, Nat.add_comm in Hround.
    cbn [List.length plus] in Hround. rewrite Hround.
    cbn zeta. rewrite Hstuck by (apply in_or_app; right; now left).
    apply deletable_app in Hdel as [Hdd Hdx].
    inversion Hdx as [|? ? Hk _]; subst. cbn [fst] in Hk. rewrite Hk.
    unfold warn. cbn [negb andb bind]. rewrite app_nil_r.
    rewrite IH.
    + rewrite rev_app_distr. simpl. now rewrite <- app_assoc.
    + eapply visible_perm; [|exact Hv].
      rewrite <- (app_nil_r d) at 2. apply accept_perm.
    + eapply nodup_keys_perm; [|exact Hnd].
      rewrite <- (app_nil_r d) at 2. apply accept_perm.
    + exact Hdd.
    + rewrite all_defined_app, Hc. reflexivity.
Qed.


(** *** The whole method *)

Lemma isexpression_loop_base :
  forall (kvs : list (string * value)) (s : struct),
    (forall kv, In kv kvs -> dict_get (__dict__ s) (fst kv) = None) ->
    NoDup (map fst kvs) ->
    isexpression_loop rt w s kvs
    = Ok (mkstruct (cls s)
            (__dict__ s
             ++ map (fun kv => (fst kv, VBool (is_expr (snd kv)))) kvs)).
Proof.
  induction kvs as [|[k v] kvs IH]; intros s Hfresh Hnd;
    cbn [isexpression_loop map fst snd].
  - rewrite app_nil_r. now destruct s.
  - inversion Hnd as [|? ? Hnotin Hnd']; subst.
    rewrite setattr_fresh by (apply (Hfresh (k, v)); now left).
    cbn [bind]. rewrite IH; cbn [cls __dict__].
    + now rewrite <- app_assoc.
    + intros kv Hin. rewrite dict_get_app_r by (apply Hfresh; now right).
      cbn [dict_get].
      destruct (String.eqb_spec k (fst kv)) as [->|_]; [|reflexivity].
      exfalso. apply Hnotin. now apply in_map.
    + assumption.
Qed.

Lemma items_visible (s : struct) : visible (items s).
Proof.
  rewrite items_user. unfold visible, user. apply Forall_forall.
  intros kv Hin. apply filter_In in Hin as [_ H].
  now apply negb_true_iff in H.
Qed.

Lemma items_nodup (s : struct) : wf s -> NoDup (map fst (items s)).
Proof. intros H. rewrite items_user. now apply user_nodup. Qed.

Lemma isexpression_values (self : struct) :
  wf self ->
  exists e,
    isexpression rt w self = Ok e
    /\ values e = map (fun kv => VBool (is_expr (snd kv))) (items self).
Proof.
  intros Hwf. unfold isexpression.
  rewrite isexpression_loop_base.
  - eexists. split; [reflexivity|].
    rewrite values_user. cbn [__dict__]. rewrite user_app.
    rewrite (hidden_only_user _ (new_like_hidden _)). cbn [app].
    rewrite user_all; [now rewrite map_map|].
    apply Forall_forall. intros kv Hin.
    apply in_map_iff in Hin as [kv' [<- Hin]]. cbn [fst].
    pose proof (items_visible self) as Hv. unfold visible in Hv.
    rewrite Forall_forall in Hv. now apply Hv.
  - intros kv Hin. apply hidden_only_get; [apply new_like_hidden|].
    pose proof (items_visible self) as Hv. unfold visible in Hv.
    rewrite Forall_forall in Hv. now apply Hv.
  - now apply items_nodup.
Qed.

Lemma select_flags {A : Type} (g : string * value -> A) (want : bool) :
  forall (l pre : list (string * value)),
    select (map g (pre ++ l))
      (find_flags want (List.length pre)
         (map (fun kv => VBool (is_expr (snd kv))) l))
    = Ok (map g (filter (fun kv => Bool.eqb (is_expr (snd kv)) want) l)).
Proof.
  induction l as [|x l IH]; intros pre; cbn [map find_flags filter truthy].
  - reflexivity.
  - assert (Hnext :
      select (map g (pre ++ x :: l))
        (find_flags want (S (List.length pre))
           (map (fun kv => VBool (is_expr (snd kv))) l))
      = Ok (map g (filter (fun kv => Bool.eqb (is_expr (snd kv)) want) l))).
    { replace (pre ++ x :: l) with ((pre ++ [x]) ++ l)
        by now rewrite <- app_assoc.
      replace (S (List.length pre)) with (List.length (pre ++ [x]))
        by (rewrite length_app; simpl; lia).
      apply IH. }
    destruct (Bool.eqb (is_expr (snd x)) want); [|exact Hnext].
    cbn [select map]. rewrite nth_error_map.
    rewrite nth_error_app2, Nat.sub_diag by lia. cbn [nth_error option_map].
    rewrite Hnext. reflexivity.
Qed.

Lemma select_flags0 {A : Type} (g : string * value -> A) (want : bool)
  (l : list (string * value)) :
  select (map g l)
    (find_flags want 0 (map (fun kv => VBool (is_expr (snd kv))) l))
  = Ok (map g (filter (fun kv => Bool.eqb (is_expr (snd kv)) want) l)).
Proof. exact (select_flags g want l []). Qed.

Lemma partition_perm (l : list (string * value)) :
  Permutation l (static_of l ++ dynamic_of l).
Proof.
  unfold static_of, dynamic_of.
  induction l as [|x l IH]; cbn [filter]; [constructor|].
  destruct (is_expr (snd x)); cbn [Bool.eqb].
  - now apply Permutation_cons_app.
  - cbn [app]. now constructor.
Qed.

Lemma sort_loop_perm (raiseerror silentmode : bool) (self : struct) :
  forall (n : nat) (c d : list (string * value)) (any err : bool)
         (out : list string) (st' : sortstate),
    visible (c ++ d) -> NoDup (map fst (c ++ d)) -> List.length d = n ->
    sort_loop rt w raiseerror silentmode self n
      (mksortstate (plain c) (plain d) any err out) = Ok st' ->
    exists c', current st' = plain c' /\ Permutation (c ++ d) c'.
Proof.
  induction n as [|n IH]; intros c d any err out st' Hv Hnd Hlen Hrun.
  - destruct d; [|discriminate]. cbn [sort_loop] in Hrun.
    inversion Hrun; subst. exists c. split; [reflexivity|].
    now rewrite app_nil_r.
  - assert (Hne : d <> []) by (intros ->; discriminate).
    destruct (sort_round_plain raiseerror silentmode self c d any err out
                Hv Hnd Hne) as (b & k & v & r & Hd & _ & Hround).
    rewrite Hlen in Hround. cbn [sort_loop] in Hrun.
    rewrite Hround in Hrun. cbn zeta in Hrun.
    assert (Hv' : visible ((c ++ [(k, v)]) ++ b ++ r))
      by (eapply visible_perm; [apply accept_perm | now rewrite <- Hd]).
    assert (Hnd' : NoDup (map fst ((c ++ [(k, v)]) ++ b ++ r)))
      by (eapply nodup_keys_perm; [apply accept_perm | now rewrite <- Hd]).
    assert (Hlen' : List.length (b ++ r) = n).
    { rewrite Hd, length_app in Hlen. cbn [List.length] in Hlen.
      rewrite length_app. lia. }
    assert (Hnext : forall a e o,
              sort_loop rt w raiseerror silentmode self n
                (mksortstate (plain (c ++ [(k, v)])) (plain (b ++ r)) a e o)
              = Ok st' ->
              exists c', current st' = plain c' /\ Permutation (c ++ d) c').
    { intros a e o H. apply IH in H; try assumption.
      destruct H as (c' & Hc' & Hp). exists c'. split; [assumption|].
      rewrite Hd. etransitivity; [apply accept_perm | exact Hp]. }
    destruct (all_defined (c ++ [(k, v)])), raiseerror,
      (mem_string k (class_dict CStruct));
      cbn [bind] in Hrun; try discriminate; eapply Hnext; eassumption.
Qed.

Lemma dict_del_keys (d : pydict) (k k0 : string) :
  In k (map fst (dict_del d k0)) -> In k (map fst d).
Proof.
  induction d as [|[k' v'] d IH]; cbn [dict_del map fst]; [tauto|].
  destruct (String.eqb k' k0); cbn [map fst In]; tauto.
Qed.

Lemma dict_del_gone (d : pydict) (k : string) :
  NoDup (map fst d) -> ~ In k (map fst (dict_del d k)).
Proof.
  induction d as [|[k' v'] d IH]; cbn [dict_del map fst]; intros Hnd.
  - tauto.
  - inversion Hnd as [|? ? Hnotin Hnd']; subst.
    destruct (String.eqb_spec k' k) as [->|Hne]; [assumption|].
    cbn [map fst In]. intros [Heq|Hin]; [congruence|]. now apply IH in Hin.
Qed.

Lemma clear_loop_ok :
  forall (ks : list string) (s s' : struct),
    wf s -> clear_loop s ks = Ok s' ->
    cls s' = cls s /\ wf s'
    /\ (forall k, In k (map fst (__dict__ s')) ->
          In k (map fst (__dict__ s)) /\ ~ In k ks).
Proof.
  induction ks as [|k ks IH]; intros s s' Hwf Hrun; cbn [clear_loop] in Hrun.
  - inversion Hrun; subst. repeat split; auto.
  - unfold __delattr__ in Hrun.
    destruct (excluded k); [discriminate|].
    destruct (mem_string k (class_dict (cls s))); [discriminate|].
    destruct (dict_mem (__dict__ s) k); [|discriminate].
    cbn [bind] in Hrun. apply IH in Hrun.
    + destruct Hrun as (Hcls & Hwf' & Hkeys). cbn [cls __dict__] in *.
      repeat split; try assumption.
      * apply Hkeys in H as [H _]. eapply dict_del_keys; eassumption.
      * intros [<-|Hin].
        -- apply Hkeys in H as [H _]. revert H. now apply dict_del_gone.
        -- apply Hkeys in H as [_ H]. contradiction.
    + unfold wf. cbn [__dict__]. now apply dict_del_nodup.
Qed.

Lemma clear_ok (s s' : struct) :
  wf s -> clear s = Ok s' ->
  cls s' = cls s /\ wf s' /\ hidden_only (__dict__ s').
Proof.
  intros Hwf Hrun. unfold clear in Hrun.
  apply clear_loop_ok in Hrun as (Hcls & Hwf' & Hkeys); [|assumption].
  repeat split; try assumption.
  intros k Hin. apply Hkeys in Hin as [Hin Hnot].
  destruct (excluded k) eqn:E; [reflexivity|].
  exfalso. apply Hnot. unfold keys. apply filter_In. now rewrite E.
Qed.

Lemma assign_loop_fresh :
  forall (l : list (string * value)) (s : struct),
    (forall kv, In kv l -> dict_get (__dict__ s) (fst kv) = None) ->
    NoDup (map fst l) ->
    assign_loop rt w s l = Ok (mkstruct (cls s) (__dict__ s ++ l)).
Proof.
  induction l as [|[k v] l IH]; intros s Hfresh Hnd; cbn [assign_loop].
  - rewrite app_nil_r. now destruct s.
  - inversion Hnd as [|? ? Hnotin Hnd']; subst.
    rewrite setattr_fresh by (apply (Hfresh (k, v)); now left).
    cbn [bind]. rewrite IH; cbn [cls __dict__].
    + now rewrite <- app_assoc.
    + intros kv Hin. rewrite dict_get_app_r by (apply Hfresh; now right).
      cbn [dict_get].
      destruct (String.eqb_spec k (fst kv)) as [->|_]; [|reflexivity].
      exfalso. apply Hnotin. now apply in_map.
    + assumption.
Qed.


End Sorting.

(** ** Strings *)

Lemma length_append (a b : string) :
  String.length (a ++ b) = String.length a + String.length b.
Proof. induction a as [|c a IH]; simpl; [reflexivity | now rewrite IH]. Qed.

Lemma append_assoc (a b c : string) : ((a ++ b) ++ c = a ++ (b ++ c))%string.
Proof. induction a as [|x a IH]; simpl; [reflexivity | now rewrite IH]. Qed.

Lemma append_nil_r (a : string) : (a ++ EmptyString)%string = a.
Proof. induction a as [|x a IH]; simpl; [reflexivity | now rewrite IH]. Qed.

Lemma contains_char_app (c : ascii) (a b : string) :
  contains_char c (a ++ b) = contains_char c a || contains_char c b.
Proof.
  induction a as [|x a IH]; simpl; [reflexivity|].
  rewrite IH. now rewrite orb_assoc.
Qed.

Lemma identifier_absent (c : ascii) (x : string) :
  identifier x = true -> ident_char c = false -> contains_char c x = false.
Proof.
  intros Hx Hc. induction x as [|y x IH]; simpl in *; [reflexivity|].
  apply andb_true_iff in Hx as [Hy Hx]. rewrite IH by assumption.
  destruct (Ascii.eqb_spec c y) as [->|_]; [congruence | reflexivity].
Qed.

Lemma prefix_cons_ne (a b : ascii) (s t : string) :
  Ascii.eqb a b = false -> prefix (String a s) (String b t) = false.
Proof.
  intros H. simpl. destruct (ascii_dec a b) as [->|_]; [|reflexivity].
  now rewrite Ascii.eqb_refl in H.
Qed.

Lemma prefix_absent (a : ascii) (s t : string) :
  contains_char a t = false -> prefix (String a s) t = false.
Proof.
  destruct t as [|b t]; [reflexivity|]. simpl contains_char.
  intros H. apply orb_false_iff in H as [H _]. now apply prefix_cons_ne.
Qed.

Lemma replace_from_absent (a : ascii) (old' new s : string) :
  contains_char a s = false ->
  replace_from (String a old') new 0 s = s.
Proof.
  induction s as [|c s IH]; intros H; [reflexivity|].
  cbn [replace_from]. rewrite prefix_absent by assumption.
  simpl in H. apply orb_false_iff in H as [_ H]. now rewrite IH.
Qed.

Lemma replace_absent (a : ascii) (old' new s : string) :
  contains_char a s = false -> replace (String a old') new s = s.
Proof. apply replace_from_absent. Qed.

Lemma find_in_absent (a : ascii) (sub' s : string) (pos : nat) :
  contains_char a s = false -> find_in (String a sub') s pos = None.
Proof.
  revert pos. induction s as [|c s IH]; intros pos H.
  - reflexivity.
  - cbn [find_in]. rewrite prefix_absent by assumption.
    simpl in H. apply orb_false_iff in H as [_ H]. now apply IH.
Qed.

Lemma find_in_char (a : ascii) (x r : string) (pos : nat) :
  contains_char a x = false ->
  find_in (String a EmptyString) (x ++ String a r) pos
  = Some (pos + String.length x).
Proof.
  revert pos. induction x as [|c x IH]; intros pos H.
  - cbn [append find_in prefix].
    destruct (ascii_dec a a); [|congruence].
    replace (prefix EmptyString r) with true by (now destruct r).
    simpl. f_equal. lia.
  - cbn [append find_in]. rewrite prefix_cons_ne.
    + simpl in H. apply orb_false_iff in H as [_ H].
      rewrite IH by assumption. simpl. f_equal. lia.
    + simpl in H. now apply orb_false_iff in H as [H _].
Qed.

Lemma substring_prefix (x r : string) :
  substring 0 (String.length x) (x ++ r) = x.
Proof.
  induction x as [|c x IH]; simpl.
  - now destruct r.
  - now rewrite IH.
Qed.

Lemma drop_length (x r : string) : drop (String.length x) (x ++ r) = r.
Proof. induction x as [|c x IH]; simpl; [reflexivity | exact IH]. Qed.

Lemma ident_char_brace_open : ident_char "{" = false. Proof. reflexivity. Qed.
Lemma ident_char_brace_close : ident_char "}" = false. Proof. reflexivity. Qed.
Lemma ident_char_backslash : ident_char "\" = false. Proof. reflexivity. Qed.
Lemma ident_char_dollar : ident_char "$" = false. Proof. reflexivity. Qed.
Lemma ident_char_caret : ident_char "^" = false. Proof. reflexivity. Qed.
Lemma ident_char_hash : ident_char "#" = false. Proof. reflexivity. Qed.
Lemma ident_char_pound : ident_char (ascii_of_nat 163) = false.
Proof. reflexivity. Qed.

(** ** An escaped placeholder *)

Lemma prefix_app (p r : string) : prefix p (p ++ r) = true.
Proof.
  induction p as [|c p IH]; simpl; [now destruct r|].
  destruct (ascii_dec c c); [exact IH | congruence].
Qed.

Lemma drop_all (s : string) : drop (String.length s) s = EmptyString.
Proof. induction s as [|c s IH]; simpl; [reflexivity | exact IH]. Qed.

Lemma escaped_length (x : string) :
  String.length (escaped x) = 4 + String.length x.
Proof.
  unfold escaped. rewrite !length_append. simpl. lia.
Qed.

Lemma find_in_unfold (sub s : string) (pos : nat) :
  find_in sub s pos
  = if prefix sub s then Some pos
    else match s with
         | EmptyString => None
         | String _ s' => find_in sub s' (S pos)
         end.
Proof. destruct s; reflexivity. Qed.

Lemma find_in_prefix (p r : string) (pos : nat) :
  find_in p (p ++ r) pos = Some pos.
Proof. rewrite find_in_unfold. now rewrite prefix_app. Qed.

Lemma find_escaped_open (x : string) :
  find (escaped x) "\${" 0 = Some 0.
Proof.
  unfold find. cbn [Nat.leb drop]. apply (find_in_prefix "\${").
Qed.

Lemma find_escaped_close (x : string) :
  identifier x = true ->
  find (escaped x) "}" 0 = Some (3 + String.length x).
Proof.
  intros Hx. unfold find. cbn [Nat.leb drop].
  change (escaped x) with (("\${" ++ x) ++ String "}" EmptyString)%string.
  rewrite find_in_char.
  - rewrite length_append. reflexivity.
  - rewrite contains_char_app.
    rewrite (identifier_absent "}" x Hx ident_char_brace_close). reflexivity.
Qed.

Lemma find_escaped_end (x : string) (sub : string) (c : ascii) :
  find (escaped x) (String c sub) (3 + String.length x + 1) = None.
Proof.
  unfold find.
  replace (3 + String.length x + 1) with (String.length (escaped x))
    by (rewrite escaped_length; lia).
  rewrite Nat.leb_refl, drop_all. reflexivity.
Qed.

Lemma escape_escaped (x : string) :
  identifier x = true -> escape (escaped x) = (doubled x, true).
Proof.
  intros Hx. unfold escape.
  rewrite escaped_length. cbn [plus escape_loop].
  rewrite find_escaped_open. rewrite (find_escaped_close x Hx).
  cbn [escape_loop]. rewrite find_escaped_end.
  replace (slice (escaped x) 0 0) with EmptyString by reflexivity.
  replace (slice (escaped x) (0 + 3) (3 + String.length x)) with x.
  - replace (3 + String.length x + 1) with (String.length (escaped x))
      by (rewrite escaped_length; lia).
    rewrite drop_all. cbn [replace replace_from append].
    rewrite escaped_length. cbn [plus Nat.ltb Nat.leb].
    unfold doubled. now rewrite append_nil_r.
  - unfold slice.
    replace (3 + String.length x - (0 + 3)) with (String.length x) by lia.
    unfold escaped. cbn [plus append substring].
    now rewrite substring_prefix.
Qed.

Lemma doubled_no_caret (x : string) :
  identifier x = true -> replace "^" "**" (doubled x) = doubled x.
Proof.
  intros Hx. apply replace_absent. unfold doubled.
  cbn [append contains_char]. rewrite contains_char_app.
  rewrite (identifier_absent "^" x Hx ident_char_caret). reflexivity.
Qed.

Lemma doubled_no_hash (x : string) :
  identifier x = true -> find (doubled x) "#" 0 = None.
Proof.
  intros Hx. unfold find. cbn [Nat.leb drop]. apply find_in_absent.
  unfold doubled. cbn [append contains_char]. rewrite contains_char_app.
  rewrite (identifier_absent "#" x Hx ident_char_hash). reflexivity.
Qed.

Lemma replace_from_skip (old new a r : string) :
  replace_from old new (String.length a) (a ++ r) = replace_from old new 0 r.
Proof.
  induction a as [|c a IH]; [reflexivity|]. cbn [String.length append].
  destruct r; cbn [replace_from]; exact IH.
Qed.

Lemma replace_prefix (c : ascii) (old' new r : string) :
  replace (String c old') new (String c old' ++ r)
  = (new ++ replace (String c old') new r)%string.
Proof.
  unfold replace.
  change (String c old' ++ r)%string with (String c (old' ++ r)).
  cbn [replace_from].
  change (String c (old' ++ r)) with (String c old' ++ r)%string.
  rewrite prefix_app.
  replace (String.length (String c old') - 1) with (String.length old')
    by (cbn [String.length]; lia).
  now rewrite replace_from_skip.
Qed.

(* protect leaves an escaped placeholder as it is *)
Lemma protect_escaped (self : struct) (x : string) :
  identifier x = true -> protect self (escaped x) = (escaped x, true).
Proof.
  intros Hx. unfold protect.
  assert (Hrest : forall c, ident_char c = false ->
                    Ascii.eqb c "{" = false -> Ascii.eqb c "}" = false ->
                    contains_char c ("{" ++ x ++ "}") = false).
  { intros c Hc Ho Hcl. cbn [append contains_char]. rewrite Ho.
    rewrite contains_char_app, (identifier_absent c x Hx Hc).
    cbn [contains_char orb]. now rewrite Hcl. }
  assert (Ht : replace "\$" pounds (escaped x)
               = (pounds ++ "{" ++ x ++ "}")%string).
  { change (escaped x) with ("\$" ++ ("{" ++ x ++ "}"))%string.
    rewrite replace_prefix. f_equal. apply replace_absent.
    apply Hrest; reflexivity. }
  rewrite Ht.
  assert (Hne : String.eqb (pounds ++ "{" ++ x ++ "}") (escaped x) = false)
    by reflexivity.
  rewrite Hne. cbn [negb].
  assert (Hfold : forall ks,
            fold_left
              (fun t k => replace ("$" ++ k) ("${" ++ k ++ "}") t) ks
              (pounds ++ "{" ++ x ++ "}")%string
            = (pounds ++ "{" ++ x ++ "}")%string).
  { induction ks as [|k ks IH]; [reflexivity|]. cbn [fold_left].
    change ("$" ++ k)%string with (String "$" k).
    rewrite replace_absent; [exact IH|].
    unfold pounds. cbn [append contains_char].
    rewrite contains_char_app, (identifier_absent "$" x Hx ident_char_dollar).
    reflexivity. }
  rewrite Hfold. f_equal.
  unfold pounds at 1. rewrite replace_prefix.
  rewrite replace_absent by (apply Hrest; reflexivity).
  reflexivity.
Qed.

Lemma prepare_escaped (self : struct) (prot : bool) (x : string) :
  identifier x = true ->
  prepare self prot (escaped x) = (doubled x, escaped x, true).
Proof.
  intros Hx. unfold prepare.
  assert (Hp : (if prot then protect self (escaped x)
                else (escaped x, false))
               = (escaped x, prot)).
  { destruct prot; [now apply protect_escaped | reflexivity]. }
  rewrite Hp, (escape_escaped x Hx).
  rewrite (doubled_no_caret x Hx), (doubled_no_hash x Hx). reflexivity.
Qed.

Lemma branch_escaped (evaluation : bool) (x : string) :
  branch_of evaluation (doubled x) true
  = if evaluation then Escaped else NoEvaluation.
Proof. now destruct evaluation. Qed.

(** ** Evaluation *)

Section EvalFacts.

Variable world : Type.
Variable rt : runtime world.

Lemma format_map_loop_nil (fuel : nat) (w : world) (d : pydict) :
  format_map_loop rt fuel w d EmptyString = Ok EmptyString.
Proof. destruct fuel; reflexivity. Qed.

Lemma ident_not_brace (c : ascii) :
  ident_char c = true ->
  Ascii.eqb c "{" = false /\ Ascii.eqb c "}" = false.
Proof.
  intros H. split.
  - destruct (Ascii.eqb_spec c "{") as [->|_]; [discriminate | reflexivity].
  - destruct (Ascii.eqb_spec c "}") as [->|_]; [discriminate | reflexivity].
Qed.

Lemma format_map_loop_ident (w : world) (d : pydict) :
  forall (x rest : string) (fuel : nat),
    identifier x = true ->
    format_map_loop rt (String.length x + fuel) w d (x ++ rest)
    = (r <- format_map_loop rt fuel w d rest ;; Ok (x ++ r)%string).
Proof.
  induction x as [|c x IH]; intros rest fuel Hx.
  - cbn [String.length plus append].
    now destruct (format_map_loop rt fuel w d rest).
  - cbn [identifier] in Hx. apply andb_true_iff in Hx as [Hc Hx].
    destruct (ident_not_brace c Hc) as [Ho Hcl].
    cbn [String.length plus append format_map_loop]. rewrite Ho, Hcl.
    rewrite IH by assumption.
    now destruct (format_map_loop rt fuel w d rest).
Qed.

Lemma format_map_loop_dollar (fuel : nat) (w : world) (d : pydict)
  (s : string) :
  format_map_loop rt (S fuel) w d (String "$" s)
  = (r <- format_map_loop rt fuel w d s ;; Ok (String "$" r)).
Proof. reflexivity. Qed.

Lemma format_map_loop_open2 (fuel : nat) (w : world) (d : pydict)
  (s : string) :
  format_map_loop rt (S fuel) w d (String "{" (String "{" s))
  = (r <- format_map_loop rt fuel w d s ;; Ok (String "{" r)).
Proof. reflexivity. Qed.

Lemma format_map_loop_close2 (fuel : nat) (w : world) (d : pydict)
  (s : string) :
  format_map_loop rt (S fuel) w d (String "}" (String "}" s))
  = (r <- format_map_loop rt fuel w d s ;; Ok (String "}" r)).
Proof. reflexivity. Qed.

Lemma format_map_doubled (w : world) (d : pydict) (x : string) :
  identifier x = true -> format_map rt w d (doubled x) = Ok (braced x).
Proof.
  intros Hx. unfold format_map, doubled.
  replace (S (String.length ("${{" ++ x ++ "}}")))
    with (S (S (String.length x + 4)))
    by (rewrite !length_append; simpl; lia).
  change ("${{" ++ x ++ "}}")%string
    with (String "$" (String "{" (String "{" (x ++ "}}")))).
  rewrite format_map_loop_dollar, format_map_loop_open2.
  rewrite format_map_loop_ident by assumption.
  change "}}" with (String "}" (String "}" EmptyString)).
  rewrite format_map_loop_close2, format_map_loop_nil.
  reflexivity.
Qed.

Lemma format_doubled (w : world) (tmp : struct) (x : string) :
  identifier x = true ->
  format rt w tmp (doubled x) true true = Ok (braced x).
Proof.
  intros Hx. unfold format. now rewrite format_map_doubled.
Qed.

Lemma store_value (tmp : struct) (key : string) (v : value) (w : world) :
  is_empty_list rt w v = false ->
  store rt tmp key v w
  = (Ok (mkstruct (cls tmp) (dict_set (__dict__ tmp) key v)), w).
Proof. intros H. unfold store, lift. now rewrite setattr_value. Qed.

Lemma store_fresh (tmp : struct) (key : string) (v : value) (w : world) :
  dict_get (__dict__ tmp) key = None ->
  store rt tmp key v w
  = (Ok (mkstruct (cls tmp) (__dict__ tmp ++ [(key, v)])), w).
Proof. intros H. unfold store, lift. now rewrite setattr_fresh. Qed.

Lemma eval_text_escaped (self tmp : struct) (protection : bool)
  (key x : string) (w : world) (prot evaluation : bool) :
  identifier x = true ->
  (if protection then Ok true else read_flag self "_protection") = Ok prot ->
  read_flag self "_evaluation" = Ok evaluation ->
  eval_text rt self tmp protection key (escaped x) w
  = (Ok (mkstruct (cls tmp) (dict_set (__dict__ tmp) key (VStr (braced x)))),
     w).
Proof.
  intros Hx Hp He. unfold eval_text, bindM, lift.
  rewrite Hp, (prepare_escaped self prot x Hx), He, branch_escaped.
  destruct evaluation; rewrite format_doubled by assumption;
    now apply store_value.
Qed.

(** *** What a round of eval leaves alone *)

Lemma setattr_frame (w : world) (tmp tmp' : struct) (key : string)
  (v : value) :
  setattr rt w tmp key v = Ok tmp' -> same_elsewhere key tmp tmp'.
Proof.
  unfold setattr, __delattr__. intros H k Hk.
  destruct (is_empty_list rt w v && hasattr tmp key).
  - destruct (excluded key); [discriminate|].
    destruct (mem_string key (class_dict (cls tmp))); [discriminate|].
    destruct (dict_mem (__dict__ tmp) key); [|discriminate].
    inversion H; subst. cbn [__dict__]. now apply dict_get_del_other.
  - inversion H; subst. cbn [__dict__]. now apply dict_get_set_other.
Qed.

Lemma store_frame (tmp tmp' : struct) (key : string) (v : value)
  (w w' : world) :
  store rt tmp key v w = (Ok tmp', w') -> same_elsewhere key tmp tmp'.
Proof.
  unfold store, lift. intros H. inversion H as [[H1 H2]].
  eapply setattr_frame; eassumption.
Qed.

Lemma store_evaluated_frame (tmp tmp' : struct) (key resstr fb : string)
  (w w' : world) :
  store_evaluated rt tmp key resstr fb w = (Ok tmp', w') ->
  same_elsewhere key tmp tmp'.
Proof.
  unfold store_evaluated. intros H.
  destruct (evaluate rt (SafeEvaluator tmp) resstr w) as [[r|? ?] w1];
    eapply store_frame; eassumption.
Qed.

Lemma format_store_frame (tmp tmp' : struct) (key s : string)
  (e r : bool) (w w' : world) :
  bindM (lift (fun w0 => format rt w0 tmp s e r))
    (fun t => store rt tmp key (VStr t)) w = (Ok tmp', w') ->
  same_elsewhere key tmp tmp'.
Proof.
  unfold bindM, lift. intros H.
  destruct (format rt w tmp s e r); [|discriminate].
  eapply store_frame; eassumption.
Qed.

Lemma eval_literal_frame (tmp tmp' : struct) (key vs : string)
  (w w' : world) :
  eval_literal rt tmp key vs w = (Ok tmp', w') ->
  same_elsewhere key tmp tmp'.
Proof.
  unfold eval_literal. intros H.
  destruct (literal_eval rt (drop 1 vs)) as [vtmp|k m]; cbn [bind] in H.
  - match type of H with
    | context [setattr rt w tmp key ?v] =>
        destruct (setattr rt w tmp key v) as [s'|k m] eqn:E
    end.
    + inversion H; subst. eapply setattr_frame; eassumption.
    + destruct k; try discriminate; eapply store_frame; eassumption.
  - destruct k; try discriminate; eapply store_frame; eassumption.
Qed.

Lemma eval_full_frame (self tmp tmp' : struct)
  (key value vs vp : string) (w w' : world) :
  eval_full rt self tmp key value vs vp w = (Ok tmp', w') ->
  same_elsewhere key tmp tmp'.
Proof.
  unfold eval_full. intros H.
  destruct (format rt w tmp vs false false) as [resstr|k m].
  - eapply store_evaluated_frame; eassumption.
  - destruct k;
      first
        [ eapply store_frame; eassumption
        | destruct (_returnerror self); eapply store_frame; eassumption
        | destruct (safe_fstring rt vp tmp w) as [[r|? ?] w1];
          [ eapply store_evaluated_frame; eassumption
          | eapply store_frame; eassumption ] ].
Qed.

Lemma eval_field_frame (self tmp tmp' : struct) (protection : bool)
  (key : string) (v : value) (w w' : world) :
  eval_field rt self tmp protection key v w = (Ok tmp', w') ->
  same_elsewhere key tmp tmp'.
Proof.
  assert (Hstore : forall v0,
            (if numeric rt v0 then store rt tmp key v0 else ret tmp) w
            = (Ok tmp', w') -> same_elsewhere key tmp tmp').
  { intros v0 H. destruct (numeric rt v0).
    - eapply store_frame; eassumption.
    - inversion H; subst. intros k _. reflexivity. }
  destruct v; cbn [eval_field]; try apply Hstore.
  unfold eval_text. intros H. unfold bindM at 1 in H. unfold lift at 1 in H.
  destruct (if protection then Ok true else read_flag self "_protection")
    as [prot|]; [|discriminate].
  destruct (prepare self prot s) as [[vs vp] esc].
  unfold bindM at 1 in H. unfold lift at 1 in H.
  destruct (read_flag self "_evaluation") as [ev|]; [|discriminate].
  destruct (branch_of ev vs esc).
  - eapply format_store_frame; eassumption.
  - eapply eval_literal_frame; eassumption.
  - eapply format_store_frame; eassumption.
  - eapply store_frame; eassumption.
  - eapply format_store_frame; eassumption.
  - eapply eval_full_frame; eassumption.
Qed.

Lemma eval_loop_frame (self : struct) (protection : bool) :
  forall (l : list (string * value)) (tmp res : struct) (w w' : world)
         (k : string),
    eval_loop rt self tmp protection l w = (Ok res, w') ->
    ~ In k (map fst l) ->
    dict_get (__dict__ res) k = dict_get (__dict__ tmp) k.
Proof.
  induction l as [|[k0 v0] l IH]; intros tmp res w w' k H Hk;
    cbn [eval_loop] in H.
  - inversion H; subst. reflexivity.
  - unfold bindM in H.
    destruct (eval_field rt self tmp protection k0 v0 w) as [[tmp1|? ?] w1]
      eqn:E; [|discriminate].
    cbn [map fst In] in Hk.
    rewrite (IH _ _ _ _ _ H) by tauto.
    apply (eval_field_frame _ _ _ _ _ _ _ _ E).
    intros ->. apply Hk. now left.
Qed.


(** *** Registries without texts *)

Lemma eval_loop_numeric (self : struct) (protection : bool) (w : world) :
  forall (l : list (string * value)) (tmp : struct),
    (forall kv, In kv l ->
       numeric rt (snd kv) = true /\ forall t, snd kv <> VStr t) ->
    (forall kv, In kv l -> dict_get (__dict__ tmp) (fst kv) = None) ->
    NoDup (map fst l) ->
    eval_loop rt self tmp protection l w
    = (Ok (mkstruct (cls tmp) (__dict__ tmp ++ l)), w).
Proof.
  induction l as [|[k v] l IH]; intros tmp Hnum Hfresh Hnd;
    cbn [eval_loop].
  - unfold ret. rewrite app_nil_r. now destruct tmp.
  - inversion Hnd as [|? ? Hnotin Hnd']; subst.
    destruct (Hnum (k, v) (or_introl eq_refl)) as [Hn Hs]. cbn [snd] in Hn, Hs.
    assert (Hfield : eval_field rt self tmp protection k v w
                     = (Ok (mkstruct (cls tmp) (__dict__ tmp ++ [(k, v)])), w)).
    { assert (Hk : dict_get (__dict__ tmp) k = None)
        by (apply (Hfresh (k, v)); now left).
      destruct v as [| b | z | s | vl | vl | lo up st | | n | sf n | o];
        try (exfalso; now apply (Hs s));
        try (cbn in Hn; discriminate);
        cbn [eval_field]; rewrite Hn; now apply store_fresh. }
    unfold bindM. rewrite Hfield. rewrite IH; cbn [cls __dict__].
    + now rewrite <- app_assoc.
    + intros kv Hin. apply Hnum. now right.
    + intros kv Hin. rewrite dict_get_app_r by (apply Hfresh; now right).
      cbn [dict_get].
      destruct (String.eqb_spec k (fst kv)) as [->|_]; [|reflexivity].
      exfalso. apply Hnotin. now apply in_map.
    + assumption.
Qed.


(** *** Full evaluation *)

Lemma store_evaluated_fresh (tmp : struct) (key resstr fb : string)
  (w : world) :
  dict_get (__dict__ tmp) key = None ->
  exists v w',
    store_evaluated rt tmp key resstr fb w
    = (Ok (mkstruct (cls tmp) (__dict__ tmp ++ [(key, v)])), w').
Proof.
  intros Hfresh. unfold store_evaluated.
  destruct (evaluate rt (SafeEvaluator tmp) resstr w) as [[r|? ?] w1];
    rewrite store_fresh by assumption; eauto.
Qed.

Lemma eval_full_fresh (self tmp : struct) (key value vs vp : string)
  (w : world) :
  dict_get (__dict__ tmp) key = None ->
  exists v w',
    eval_full rt self tmp key value vs vp w
    = (Ok (mkstruct (cls tmp) (__dict__ tmp ++ [(key, v)])), w')
    /\ (forall m,
          format rt w tmp vs false false = Raise SyntaxError m
          \/ format rt w tmp vs false false = Raise TypeError m
          \/ format rt w tmp vs false false = Raise ValueError m ->
          v = VStr ("ERROR < " ++ m ++ " >")).
Proof.
  intros Hfresh. unfold eval_full.
  destruct (format rt w tmp vs false false) as [resstr|k m].
  - destruct (store_evaluated_fresh tmp key resstr
                (replace (String newline EmptyString) "," resstr) w Hfresh)
      as (v & w' & Hs).
    exists v, w'. split; [exact Hs|]. intros m [H|[H|H]]; discriminate.
  - destruct k;
      try (destruct (_returnerror self));
      try (rewrite store_fresh by assumption; do 2 eexists;
           split; [reflexivity|];
           intros m' [H|[H|H]]; inversion H; reflexivity);
      destruct (safe_fstring rt vp tmp w) as [[r|? ?] w1];
      try (destruct (store_evaluated_fresh tmp key r r w1 Hfresh)
             as (v & w' & Hs);
           exists v, w'; split; [exact Hs|];
           intros m' [H|[H|H]]; discriminate);
      rewrite store_fresh by assumption; do 2 eexists;
      (split; [reflexivity|]); intros m' [H|[H|H]]; discriminate.
Qed.


(** *** Attribute access *)

Lemma visit_Attribute_eq (ctx : pydict) (e : expr) (attr : string) :
  visit rt ctx (Attribute e attr)
  = bindM (visit rt ctx e)
      (fun v w =>
         match py_getattr rt w v attr with
         | Some a =>
             if String.eqb attr "T" && is_ndarray rt v then (Ok a, w)
             else if String.eqb attr "@" && is_ndarray rt v
                  then (py_matmul rt w v v, w)
                  else (Ok a, w)
         | None =>
             (Raise ValueError
                ("Object '" ++ py_str rt w v ++ "' has no attribute '"
                 ++ attr ++ "'"), w)
         end).
Proof. reflexivity. Qed.

(** C5, as the code has it.  Once the operand of an attribute access
    has evaluated to an object v: the access succeeds whenever v has
    the attribute, whatever its name, and yields what getattr yields
    (for T on an array, the transpose); it fails only when v has no
    such attribute, and then with ValueError.  No list of allowed
    attributes is consulted. *)
Theorem visit_Attribute_any (ctx : pydict) (e : expr) (attr : string)
  (w w1 : world) (v : value) :
  visit rt ctx e w = (Ok v, w1) ->
  (forall a,
     py_getattr rt w1 v attr = Some a ->
     ~ (attr = "@" /\ is_ndarray rt v = true) ->
     visit rt ctx (Attribute e attr) w = (Ok a, w1))
  /\ (py_getattr rt w1 v attr = None ->
      visit rt ctx (Attribute e attr) w
      = (Raise ValueError
           ("Object '" ++ py_str rt w1 v ++ "' has no attribute '"
            ++ attr ++ "'"), w1)).
Proof.
  intros Hv. rewrite visit_Attribute_eq. unfold bindM. rewrite Hv. split.
  - intros a Ha Hat. rewrite Ha.
    destruct (String.eqb attr "T" && is_ndarray rt v); [reflexivity|].
    destruct (String.eqb_spec attr "@") as [->|_]; [|reflexivity].
    destruct (is_ndarray rt v); [|reflexivity].
    exfalso. now apply Hat.
  - intros Ha. now rewrite Ha.
Qed.

End EvalFacts.

(** ** The examples *)

Section Example.

Variable world : Type.
Variable rt : runtime world.
Variable w : world.

(** C1.  The registry {a: 1, c: "${a}+${b}", b: 2} is put by
    sortdefinitions in the order a, b, c, and eval of the sorted
    registry gives 3 for c, in every interpreter in which str(1) is "1",
    str(2) is "2", the text "1+2" parses as the sum of the constants 1 and
    2, and 1 + 2 is 3. *)
Theorem dependency_order_example :
  py_str rt w (VInt 1) = "1" ->
  py_str rt w (VInt 2) = "2" ->
  ast_parse rt "1+2" = Ok (BinOp (Constant (VInt 1)) Add (Constant (VInt 2))) ->
  py_binop rt w Add (VInt 1) (VInt 2) = Ok (VInt 3) ->
  exists sorted res,
    sortdefinitions rt w reg_abc true false = Ok (sorted, [])
    /\ keys sorted = ["a"; "b"; "c"]
    /\ eval rt sorted false w = (Ok res, w)
    /\ getattr res "c" = Ok (VInt 3).
Proof.
  intros H1 H2 Hparse Hadd.
  eexists. eexists. split; [vm_compute; reflexivity|].
  split; [vm_compute; reflexivity|].
  split.
  - destruct rt; cbn in H1, H2, Hparse, Hadd.
    vm_compute. rewrite H1, H2. vm_compute. rewrite Hparse. vm_compute.
    rewrite Hadd. vm_compute. reflexivity.
  - vm_compute. reflexivity.
Qed.

End Example.

(* the example in the runtime Sample.rt *)
Lemma dependency_order_example_witness :
  exists sorted res,
    sortdefinitions Sample.rt [] reg_abc true false = Ok (sorted, [])
    /\ keys sorted = ["a"; "b"; "c"]
    /\ eval Sample.rt sorted false [] = (Ok res, [])
    /\ getattr res "c" = Ok (VInt 3).
Proof.
  apply (dependency_order_example Sample.heap Sample.rt []);
    vm_compute; reflexivity.
Defined.

(** C7.  eval changes a value of its source registry: with the fields
    a = [1, 2] (a list, held by reference) and b = "a.append(3)", eval
    returns, and afterwards the list bound to a, in the source and in the
    result alike, is [1, 2, 3]. *)
Theorem eval_mutates_shared_list :
  let before := [[VInt 1; VInt 2]] in
  exists res after,
    eval Sample.rt reg_shared false before = (Ok res, after)
    /\ getattr reg_shared "a" = Ok (VObj 0)
    /\ getattr res "a" = Ok (VObj 0)
    /\ getattr res "b" = Ok VNone
    /\ nth_error before 0 = Some [VInt 1; VInt 2]
    /\ nth_error after 0 = Some [VInt 1; VInt 2; VInt 3].
Proof.
  eexists. eexists. split; [vm_compute; reflexivity|].
  repeat split.
Qed.




(** Against C5 as documented.  With a = 5 in the context, the expression
    a.real reads the attribute real of an integer: the attribute is not T, the
    value is not an array, and the evaluation succeeds. *)
Lemma attribute_read_outside_any_list :
  is_ndarray Sample.rt (VInt 5) = false
  /\ evaluate Sample.rt ctx_five "a.real" [] = (Ok (VInt 5), []).
Proof. split; vm_compute; reflexivity. Qed.


(** ** Instances

    The properties above at given registries, in the runtime
    [Sample.rt]. *)








(* an attribute that an integer has, and one that it has not *)
Lemma visit_Attribute_any_witness :
  visit Sample.rt ctx_five (Attribute (Name "a") "real") []
  = (Ok (VInt 5), [])
  /\ visit Sample.rt ctx_five (Attribute (Name "a") "nope") []
     = (Raise ValueError "Object '5' has no attribute 'nope'", []).
Proof.
  split.
  - apply (proj1 (visit_Attribute_any Sample.heap Sample.rt ctx_five
                    (Name "a") "real" [] [] (VInt 5) eq_refl)).
    + reflexivity.
    + intros [H _]. discriminate H.
  - apply (proj2 (visit_Attribute_any Sample.heap Sample.rt ctx_five
                    (Name "a") "nope" [] [] (VInt 5) eq_refl)).
    reflexivity.
Defined.
